(** * pg-migration: schema transfer (pkg/schema, pkg/config)

    A shallow embedding of the schema dump / reset / rewrite / restore
    procedure of [pkg/schema/schema.go] and of the connection descriptor of
    [pkg/config/config.go], with the properties of the idempotent schema
    transfer procedure stated and proved over it; then of the loaders of
    [pkg/config/config.go] and of the replication set-up of
    [package replication], with what they show.

    Go strings are immutable byte sequences: they are modelled as
    [list ascii] (one [ascii] per byte).  Go's [error] values are modelled
    by their message: [None] is [nil], [Some msg] is an error whose
    [Error()] text is [msg]. *)

From Stdlib Require Import ZArith Ascii String List Lia Bool.
From Stdlib Require Import Numbers.DecimalString.
From stdpp Require Import gmap strings list fin_maps.

Abbreviation text := (list ascii).
Abbreviation error := (option (list ascii)).

(** A string literal of the source, as the byte sequence it denotes. *)
Definition str (s : string) : text := list_ascii_of_string s.

(** ** The part of Go's [strings] package used by the rewriter *)

Module strings.

(** [strings.HasPrefix(s, prefix)]. *)
Fixpoint HasPrefix (s prefix : text) : bool :=
  match prefix, s with
  | [], _ => true
  | _ :: _, [] => false
  | p :: prefix', c :: s' => Ascii.eqb p c && HasPrefix s' prefix'
  end.

(** [strings.Index(s, substr)]: the index of the first instance of
    [substr] in [s]; Go's [-1] is [None]. *)
Fixpoint Index (s substr : text) : option nat :=
  if HasPrefix s substr then Some 0
  else match s with
       | [] => None
       | _ :: s' => S <$> Index s' substr
       end.

(** The loop of [strings.Count(s, substr)] for a non-empty [substr]:
    [i := Index(s, substr); if i == -1 return n; n++; s = s[i+len(substr):]].
    Every iteration consumes at least one byte, so [length s] iterations
    are enough. *)
Fixpoint count_loop (fuel : nat) (s substr : text) : nat :=
  match fuel with
  | O => O
  | S fuel' =>
      match Index s substr with
      | None => O
      | Some i => S (count_loop fuel' (drop (i + length substr) s) substr)
      end
  end.

Definition Count (s substr : text) : nat := count_loop (length s) s substr.

(** The replacement loop of [strings.Replace]:
    [j := start + Index(s[start:], old); b.WriteString(s[start:j]);
     b.WriteString(new); start = j + len(old)], [n] times, then
    [b.WriteString(s[start:])]. *)
Fixpoint replace_loop (n : nat) (s old new : text) : text :=
  match n with
  | O => s
  | S n' =>
      match Index s old with
      | None => s
      | Some j => take j s ++ new ++ replace_loop n' (drop (j + length old) s) old new
      end
  end.

(** [strings.Replace(s, old, new, n)] for a non-empty [old], which is what
    every call site of the repository passes.  (For an empty [old] Go
    inserts [new] around every UTF-8 sequence; that branch is not
    modelled and the text is returned as it is.) *)
Definition Replace (s old new : text) (n : Z) : text :=
  match old with
  | [] => s
  | _ :: _ =>
      if bool_decide (old = new) || (n =? 0)%Z then s
      else
        let m := Count s old in
        if (m =? 0)%nat then s
        else
          let n' := if (n <? 0)%Z || (Z.of_nat m <? n)%Z then m else Z.to_nat n in
          replace_loop n' s old new
  end.

End strings.

(** ** The Idempotency Rewriter *)

(** [processSchemaFile], the value of [sqlContent] that is written to
    [output] as a function of the bytes read from [input]
    (schema.go, the six [strings.Replace] statements of [processSchemaFile]). *)
Definition processSchemaFile_content (content : text) : text :=
  let sqlContent := content in
  let sqlContent :=
    strings.Replace sqlContent (str "CREATE SCHEMA ") (str "CREATE SCHEMA IF NOT EXISTS ") (-1) in
  let sqlContent :=
    strings.Replace sqlContent (str "CREATE FUNCTION ") (str "CREATE OR REPLACE FUNCTION ") (-1) in
  let sqlContent :=
    strings.Replace sqlContent (str "CREATE TABLE ") (str "CREATE TABLE IF NOT EXISTS ") (-1) in
  let sqlContent :=
    strings.Replace sqlContent (str "CREATE INDEX ") (str "CREATE INDEX IF NOT EXISTS ") (-1) in
  let sqlContent :=
    strings.Replace sqlContent (str "CREATE SEQUENCE ") (str "CREATE SEQUENCE IF NOT EXISTS ") (-1) in
  let sqlContent :=
    strings.Replace sqlContent (str "CREATE VIEW ") (str "CREATE OR REPLACE VIEW ") (-1) in
  sqlContent.

(** [RestoreSchemaFromReader], the value of [content] handed to [psql] on its
    standard input as a function of the bytes read from [reader]
    (schema.go, the six one-line [strings.Replace] statements). *)
Definition RestoreSchemaFromReader_content (buf : text) : text :=
  let content := buf in
  let content := strings.Replace content (str "CREATE SCHEMA ") (str "CREATE SCHEMA IF NOT EXISTS ") (-1) in
  let content := strings.Replace content (str "CREATE FUNCTION ") (str "CREATE OR REPLACE FUNCTION ") (-1) in
  let content := strings.Replace content (str "CREATE TABLE ") (str "CREATE TABLE IF NOT EXISTS ") (-1) in
  let content := strings.Replace content (str "CREATE INDEX ") (str "CREATE INDEX IF NOT EXISTS ") (-1) in
  let content := strings.Replace content (str "CREATE SEQUENCE ") (str "CREATE SEQUENCE IF NOT EXISTS ") (-1) in
  let content := strings.Replace content (str "CREATE VIEW ") (str "CREATE OR REPLACE VIEW ") (-1) in
  content.


(** *** The rule table of the specification and a one-pass reading of it *)

(** [strings.Contains(s, substr)], that is [Index(s, substr) >= 0]. *)
Definition Contains (s substr : text) : bool :=
  match strings.Index s substr with Some _ => true | None => false end.

(** The rule table of the specification: source statement prefix and
    rewritten prefix, in the order of the table. *)
Definition rule_table : list (text * text) :=
  [ (str "CREATE SCHEMA ",   str "CREATE SCHEMA IF NOT EXISTS ");
    (str "CREATE FUNCTION ", str "CREATE OR REPLACE FUNCTION ");
    (str "CREATE TABLE ",    str "CREATE TABLE IF NOT EXISTS ");
    (str "CREATE INDEX ",    str "CREATE INDEX IF NOT EXISTS ");
    (str "CREATE SEQUENCE ", str "CREATE SEQUENCE IF NOT EXISTS ");
    (str "CREATE VIEW ",     str "CREATE OR REPLACE VIEW ") ].

(** The rules applied one after the other, each to the whole document. *)
Definition apply_rules (rules : list (text * text)) (t : text) : text :=
  fold_left (fun acc r => strings.Replace acc r.1 r.2 (-1)) rules t.

(** The first rule of [rules] whose source prefix is found at the head of [s]. *)
Fixpoint find_rule (rules : list (text * text)) (s : text) : option (text * text) :=
  match rules with
  | [] => None
  | r :: rules' => if strings.HasPrefix s r.1 then Some r else find_rule rules' s
  end.

(** One pass over the document from left to right, with no knowledge of SQL:
    wherever the source prefix of a rule is found its rewritten prefix is
    emitted and the instance is skipped ([skip] counts the bytes of it still
    to be passed over); every other byte is copied. *)
Fixpoint scan (rules : list (text * text)) (skip : nat) (s : text) : text :=
  match s with
  | [] => []
  | c :: s' =>
      match skip with
      | S k => scan rules k s'
      | O =>
          match find_rule rules s with
          | Some r => r.2 ++ scan rules (length r.1 - 1) s'
          | None => c :: scan rules 0 s'
          end
      end
  end.

Definition rewrite_in_one_pass (t : text) : text := scan rule_table 0 t.

(** Two texts are compatible when one of them is a prefix of the other:
    they can be read at the same place of a document. *)
Definition compat (a b : text) : bool :=
  strings.HasPrefix a b || strings.HasPrefix b a.

(** [fresh_for p new]: inserting [new] into a document can neither complete
    an instance of [p] that starts before it nor start one inside it. *)
Definition fresh_for (p new : text) : bool :=
  forallb (fun k => negb (compat (drop k p) new)) (seq 0 (length p)) &&
  forallb (fun i => negb (compat p (drop i new))) (seq 0 (length new)).

(** [apart old p]: no instance of [old] starts inside an instance of [p]
    (at its first byte included). *)
Definition apart (old p : text) : bool :=
  forallb (fun k => negb (compat old (drop k p))) (seq 0 (length p)).

(** The side conditions under which the rules [rules], applied one after the
    other, do not interfere: a later source prefix is not created by an
    earlier replacement and is not overlapped by an earlier source prefix. *)
Fixpoint independent (rules : list (text * text)) : bool :=
  match rules with
  | [] => true
  | r :: rules' =>
      negb (bool_decide (r.1 = [])) &&
      forallb (fun r' => fresh_for r'.1 r.2 && apart r.1 r'.1) rules' &&
      independent rules'
  end.

(** [separate rules]: the source prefixes of two different rules are never
    found at the same place, and no instance of one can start inside an
    instance of another (or of itself). *)
Definition separate (rules : list (text * text)) : bool :=
  forallb (fun r =>
    negb (bool_decide (r.1 = [])) &&
    forallb (fun r' =>
      (bool_decide (r = r') || negb (compat r.1 r'.1)) &&
      forallb (fun k => negb (compat (drop k r.1) r'.1)) (seq 1 (length r.1 - 1)))
      rules) rules.

(** ** The part of Go's [fmt] package used by the repository *)

Module fmt.

(** An operand of a formatting call: a [string] or an [int].  An [error]
    operand is passed as its message, which is what [%v] prints of it. *)
Inductive operand :=
| Str (s : text)
| Int (n : Z).

(** An [int] in decimal, with a minus sign when negative. *)
Definition itoa (n : Z) : text := str (NilZero.string_of_int (Z.to_int n)).

Definition type_and_value (a : operand) : text :=
  match a with
  | Str s => str "string=" ++ s
  | Int n => str "int=" ++ itoa n
  end.

(** What a verb prints of an operand; a verb that does not fit the
    operand prints Go's [%!verb(type=value)]. *)
Definition verb (v : ascii) (a : operand) : text :=
  match a with
  | Str s =>
      if Ascii.eqb v "d" then str "%!d(" ++ type_and_value a ++ str ")" else s
  | Int n =>
      if Ascii.eqb v "s" then str "%!s(" ++ type_and_value a ++ str ")" else itoa n
  end.

Fixpoint extra (args : list operand) : text :=
  match args with
  | [] => []
  | [a] => type_and_value a
  | a :: args' => type_and_value a ++ str ", " ++ extra args'
  end.

(** [fmt.Sprintf] for the verbs [%s], [%d], [%v] and [%%], the only ones
    in the format strings of the repository.  A verb with no operand
    left prints [%!verb(MISSING)], operands left over are reported as
    [%!(EXTRA ...)]. *)
Fixpoint Sprintf (format : text) (args : list operand) : text :=
  match format with
  | [] =>
      match args with
      | [] => []
      | _ :: _ => str "%!(EXTRA " ++ extra args ++ str ")"
      end
  | c :: format' =>
      if Ascii.eqb c "%" then
        match format' with
        | [] => str "%!(NOVERB)" ++ Sprintf format' args
        | v :: format'' =>
            if Ascii.eqb v "%" then "%"%char :: Sprintf format'' args
            else
              match args with
              | [] => "%"%char :: "!"%char :: v :: str "(MISSING)" ++ Sprintf format'' []
              | a :: args' => verb v a ++ Sprintf format'' args'
              end
        end
      else c :: Sprintf format' args
  end.

(** [fmt.Errorf]: an error whose message is the formatted text. *)
Definition Errorf (format : text) (args : list operand) : error :=
  Some (Sprintf format args).

End fmt.

(** ** The part of Go's [strconv] package used by the repository *)

Module strconv.

(** The value of a decimal digit. *)
Definition digit (c : ascii) : option Z :=
  let n := nat_of_ascii c in
  if (48 <=? n)%nat && (n <=? 57)%nat then Some (Z.of_nat (n - 48)) else None.

(** The number that a text of decimal digits writes, after [acc]. *)
Fixpoint digits (acc : Z) (s : text) : option Z :=
  match s with
  | [] => Some acc
  | c :: s' =>
      match digit c with
      | Some d => digits (acc * 10 + d) s'
      | None => None
      end
  end.

Section atoi.
(** [strconv.Quote], which the message of a [*NumError] applies to the
    text that failed to parse; it is not modelled. *)
Context (Quote : text -> text).

(** The message of [&NumError{"Atoi", s, err}]. *)
Definition NumError (s reason : text) : text :=
  str "strconv.Atoi: parsing " ++ Quote s ++ str ": " ++ reason.

(** [strconv.Atoi(s)] where [int] has 64 bits: an optional sign and at
    least one decimal digit; a number that does not fit in an [int] is
    reported with the nearest [int]. *)
Definition Atoi (s : text) : Z * error :=
  let '(neg, body) :=
    match s with
    | c :: s' =>
        if Ascii.eqb c "-" then (true, s')
        else if Ascii.eqb c "+" then (false, s')
        else (false, s)
    | [] => (false, [])
    end in
  match body with
  | [] => (0, Some (NumError s (str "invalid syntax")))
  | _ :: _ =>
      match digits 0 body with
      | None => (0, Some (NumError s (str "invalid syntax")))
      | Some un =>
          if negb neg && (2 ^ 63 <=? un) then
            (2 ^ 63 - 1, Some (NumError s (str "value out of range")))
          else if neg && (2 ^ 63 <? un) then
            (- 2 ^ 63, Some (NumError s (str "value out of range")))
          else (if neg then - un else un, None)
      end
  end%Z.

End atoi.
End strconv.

(** ** Connection descriptors ([pkg/config]) *)

Module config.
Import fmt.

(** [DBConfig] holds the database connection configuration. *)
Record DBConfig := {
  Host : text;
  Port : Z;
  User : text;
  Password : text;
  Database : text;
  SSLMode : text
}.

(** [ConnectionString] returns a PostgreSQL connection string. *)
Definition ConnectionString (c : DBConfig) : text :=
  let sslMode := SSLMode c in
  let sslMode := if bool_decide (sslMode = []) then str "require" else sslMode in
  Sprintf (str "host=%s port=%d user=%s password=%s dbname=%s sslmode=%s")
    [Str (Host c); Int (Port c); Str (User c); Str (Password c); Str (Database c); Str sslMode].

(** [PgDumpConnectionString] returns a connection string for pg_dump. *)
Definition PgDumpConnectionString (c : DBConfig) : text :=
  Sprintf (str "postgresql://%s:%s@%s:%d/%s")
    [Str (User c); Str (Password c); Str (Host c); Int (Port c); Str (Database c)].

(** [validateConfig] validates that all required configuration
    parameters are provided. *)
Definition validateConfig (c : DBConfig) : error :=
  if bool_decide (Host c = []) then Some (str "database host is required")
  else if bool_decide (User c = []) then Some (str "database user is required")
  else if bool_decide (Password c = []) then Some (str "database password is required")
  else if bool_decide (Database c = []) then Some (str "database name is required")
  else None.

Section load.
(** [strconv.Quote] and [os.Getenv]: the environment of the process is a
    parameter, a variable that is not set reads as the empty text. *)
Context (Quote : text -> text) (Getenv : text -> text).

(** [LoadSourceConfig] loads source database configuration from flags
    or environment variables.  The port is settled first, as it is the
    only field whose loading can fail; the other fields are read from
    the environment in the order of the source. *)
Definition LoadSourceConfig (host : text) (port : Z) (user password database sslMode : text)
  : option DBConfig * error :=
  let Host' := if bool_decide (host = []) then Getenv (str "SOURCE_DB_HOST") else host in
  let port_err :=
    if (port =? 0)%Z then
      let portStr := Getenv (str "SOURCE_DB_PORT") in
      if negb (bool_decide (portStr = [])) then
        let '(n, err) := strconv.Atoi Quote portStr in
        match err with
        | Some e => (n, Errorf (str "invalid SOURCE_DB_PORT: %v") [Str e])
        | None => (n, None)
        end
      else (port, None)
    else (port, None) in
  match port_err.2 with
  | Some e => (None, Some e)
  | None =>
      let Port' := port_err.1 in
      let User' := if bool_decide (user = []) then Getenv (str "SOURCE_DB_USER") else user in
      let Password' :=
        if bool_decide (password = []) then Getenv (str "SOURCE_DB_PASSWORD") else password in
      let Database' :=
        if bool_decide (database = []) then Getenv (str "SOURCE_DB_NAME") else database in
      let SSLMode' :=
        if bool_decide (sslMode = []) then Getenv (str "SOURCE_DB_SSLMODE") else sslMode in
      let Port' := if (Port' =? 0)%Z then 5432%Z else Port' in
      let SSLMode' := if bool_decide (SSLMode' = []) then str "require" else SSLMode' in
      let config :=
        {| Host := Host'; Port := Port'; User := User'; Password := Password';
           Database := Database'; SSLMode := SSLMode' |} in
      match validateConfig config with
      | Some e => (None, Some e)
      | None => (Some config, None)
      end
  end.

(** [LoadTargetConfig] loads target database configuration from flags
    or environment variables. *)
Definition LoadTargetConfig (host : text) (port : Z) (user password database sslMode : text)
  : option DBConfig * error :=
  let Host' := if bool_decide (host = []) then Getenv (str "TARGET_DB_HOST") else host in
  let port_err :=
    if (port =? 0)%Z then
      let portStr := Getenv (str "TARGET_DB_PORT") in
      if negb (bool_decide (portStr = [])) then
        let '(n, err) := strconv.Atoi Quote portStr in
        match err with
        | Some e => (n, Errorf (str "invalid TARGET_DB_PORT: %v") [Str e])
        | None => (n, None)
        end
      else (port, None)
    else (port, None) in
  match port_err.2 with
  | Some e => (None, Some e)
  | None =>
      let Port' := port_err.1 in
      let User' := if bool_decide (user = []) then Getenv (str "TARGET_DB_USER") else user in
      let Password' :=
        if bool_decide (password = []) then Getenv (str "TARGET_DB_PASSWORD") else password in
      let Database' :=
        if bool_decide (database = []) then Getenv (str "TARGET_DB_NAME") else database in
      let SSLMode' :=
        if bool_decide (sslMode = []) then Getenv (str "TARGET_DB_SSLMODE") else sslMode in
      let Port' := if (Port' =? 0)%Z then 5432%Z else Port' in
      let SSLMode' := if bool_decide (SSLMode' = []) then str "require" else SSLMode' in
      let config :=
        {| Host := Host'; Port := Port'; User := User'; Password := Password';
           Database := Database'; SSLMode := SSLMode' |} in
      match validateConfig config with
      | Some e => (None, Some e)
      | None => (Some config, None)
      end
  end.

End load.

End config.

(** ** The operating system, as the schema handler uses it *)

(** A world is a file system and the trace of what was done to it and to
    the outside.  What the outside answers (the environment, the names the
    system picks for temporary files, the clock, which system call fails,
    what an external program reports) is an [Oracle]: every claim below is
    about all oracles. *)

Module os.

Inductive Node :=
| Dir
| File (content : text).

(** What [cmd.Stdin] is set to: an open file (known by its name), an
    in-memory reader, or nothing. *)
Inductive Reader :=
| FileReader (name : text)
| StringReader (s : text)
| NoReader.

(** [exec.Cmd]: [Args] holds the command name followed by its arguments,
    as [exec.Command] builds it. *)
Record Cmd := {
  Path : text;
  Args : list text;
  Env : list text;
  Stdin : Reader
}.

Inductive Syscall :=
| SysMkdirTemp (pattern : text)
| SysCreateTemp (pattern : text)
| SysOpen (name : text)
| SysCreate (name : text)
| SysRead (name : text)
| SysWrite (name : text).

(** What running an external program comes to: the error of [cmd.Run()],
    what the child wrote to its standard error, and, for a [pg_dump]
    child, what it wrote to its output file (if it got that far). *)
Record Outcome := {
  exit_error : error;
  stderr : text;
  written : option text
}.

Inductive Event :=
| EvMkdir (name : text)
| EvCreate (name : text)
| EvWrite (name : text) (bytes : text)
| EvRemove (name : text)
| EvRemoveAll (name : text)
| EvRun (c : Cmd) (files : gmap text Node)
| EvLog (line : text).

Record Oracle := {
  Environ : list text;              (* os.Environ() *)
  TempDir : text;                   (* os.TempDir() *)
  Now : text;                       (* time.Now().Format("20060102-150405") *)
  random : text -> text;            (* the random part of a temporary name *)
  fault : Syscall -> error;         (* the system calls that fail *)
  child : Cmd -> gmap text Node -> Outcome
}.

Record World := {
  files : gmap text Node;
  trace : list Event
}.

Definition M (A : Type) : Type := World -> A * World.

#[global] Instance M_ret : MRet M := fun A a w => (a, w).
#[global] Instance M_bind : MBind M :=
  fun A B f m w => let '(a, w') := m w in f a w'.

Definition emit (e : Event) : M unit :=
  fun w => (tt, {| files := files w; trace := trace w ++ [e] |}).

Definition modify (f : gmap text Node -> gmap text Node) : M unit :=
  fun w => (tt, {| files := f (files w); trace := trace w |}).

Definition lookup_file (name : text) : M (option Node) :=
  fun w => (files w !! name, w).

(** [defer cleanup] before [body]: [cleanup] runs when [body] returns,
    whatever it returns. *)
Definition defer {A} (cleanup : M unit) (body : M A) : M A :=
  r ← body; cleanup;; mret r.

(** [filepath.Join] of a clean directory name and a file name. *)
Definition Join (dir name : text) : text := dir ++ str "/" ++ name.

(** [name] is inside the directory [dir]. *)
Definition inside (dir name : text) : bool := strings.HasPrefix name (dir ++ str "/").

(** The pattern of a temporary name, split at its last [*]. *)
Fixpoint split_last_star (pattern : text) : option (text * text) :=
  match pattern with
  | [] => None
  | c :: pattern' =>
      match split_last_star pattern' with
      | Some (a, b) => Some (c :: a, b)
      | None => if Ascii.eqb c "*" then Some ([], pattern') else None
      end
  end.

Definition prefixAndSuffix (pattern : text) : text * text :=
  match split_last_star pattern with
  | Some r => r
  | None => (pattern, [])
  end.

Section calls.
Context (O : Oracle).

Definition temp_name (pattern : text) : text :=
  let '(prefix, suffix) := prefixAndSuffix pattern in
  Join (TempDir O) (prefix ++ random O pattern ++ suffix).

(** [os.MkdirTemp("", pattern)]. *)
Definition MkdirTemp (pattern : text) : M (text * error) :=
  match fault O (SysMkdirTemp pattern) with
  | Some e => mret ([], Some e)
  | None =>
      let name := temp_name pattern in
      existing ← lookup_file name;
      match existing with
      | Some _ => mret ([], Some (str "mkdir " ++ name ++ str ": file exists"))
      | None =>
          modify (insert name Dir);; emit (EvMkdir name);; mret (name, None)
      end
  end.

(** [os.CreateTemp("", pattern)]; the open file is known by its name. *)
Definition CreateTemp (pattern : text) : M (text * error) :=
  match fault O (SysCreateTemp pattern) with
  | Some e => mret ([], Some e)
  | None =>
      let name := temp_name pattern in
      existing ← lookup_file name;
      match existing with
      | Some _ => mret ([], Some (str "open " ++ name ++ str ": file exists"))
      | None =>
          modify (insert name (File []));; emit (EvCreate name);; mret (name, None)
      end
  end.

(** [os.Open(name)]. *)
Definition Open (name : text) : M (text * error) :=
  match fault O (SysOpen name) with
  | Some e => mret ([], Some e)
  | None =>
      existing ← lookup_file name;
      match existing with
      | Some _ => mret (name, None)
      | None => mret ([], Some (str "open " ++ name ++ str ": no such file or directory"))
      end
  end.

(** [os.Create(name)]: the file is created, or truncated if it exists. *)
Definition Create (name : text) : M (text * error) :=
  match fault O (SysCreate name) with
  | Some e => mret ([], Some e)
  | None =>
      existing ← lookup_file name;
      match existing with
      | Some Dir => mret ([], Some (str "open " ++ name ++ str ": is a directory"))
      | _ => modify (insert name (File []));; emit (EvCreate name);; mret (name, None)
      end
  end.

(** [f.Write(bytes)] and [f.WriteString(s)] on the open file [f]. *)
Definition Write (f : text) (bytes : text) : M error :=
  match fault O (SysWrite f) with
  | Some e => mret (Some e)
  | None =>
      existing ← lookup_file f;
      let content := match existing with Some (File old) => old | _ => [] end in
      modify (insert f (File (content ++ bytes)));; emit (EvWrite f bytes);; mret None
  end.

(** The bytes a reader yields when it is read to its end. *)
Definition contents (r : Reader) (fs : gmap text Node) : text :=
  match r with
  | FileReader name => match fs !! name with Some (File c) => c | _ => [] end
  | StringReader s => s
  | NoReader => []
  end.

(** [io.ReadAll(r)]. *)
Definition ReadAll (r : Reader) : M (text * error) :=
  match r with
  | FileReader name =>
      match fault O (SysRead name) with
      | Some e => mret ([], Some e)
      | None =>
          existing ← lookup_file name;
          match existing with
          | Some (File c) => mret (c, None)
          | Some Dir => mret ([], Some (str "read " ++ name ++ str ": is a directory"))
          | None => mret ([], Some (str "read " ++ name ++ str ": file already closed"))
          end
      end
  | StringReader s => mret (s, None)
  | NoReader => mret ([], None)
  end.

(** [os.Remove(name)]; the callers ignore its result. *)
Definition Remove (name : text) : M unit :=
  modify (delete name);; emit (EvRemove name).

(** [os.RemoveAll(path)]: [path] and everything inside it. *)
Definition RemoveAll (path : text) : M unit :=
  modify (filter (fun kv => kv.1 <> path /\ inside path kv.1 = false));;
  emit (EvRemoveAll path).

(** The options of [pg_dump] that take a value, among those the
    handler passes. *)
Definition takes_value (flag : text) : bool :=
  bool_decide (flag ∈ [str "-h"; str "-p"; str "-U"; str "-d"; str "-f"]).

(** The value of the option [-f] on a [pg_dump] command line, read the
    way the program reads its options: the word after an option that
    takes a value is its value, whatever it looks like. *)
Fixpoint output_option (args : list text) : option text :=
  match args with
  | [] => None
  | a :: args' =>
      if takes_value a then
        match args' with
        | [] => None
        | b :: args'' =>
            if bool_decide (a = str "-f") then Some b else output_option args''
        end
      else output_option args'
  end.

(** The file an external program writes: [pg_dump] writes the dump to
    the file named by [-f]; [psql] writes no file. *)
Definition output_file (c : Cmd) : option text :=
  if bool_decide (Path c = str "pg_dump") then output_option (tail (Args c)) else None.

(** [cmd.Run()] with [cmd.Stderr] set to a buffer: the error and the
    contents of the buffer. *)
Definition Run (c : Cmd) : M (error * text) :=
  fun w =>
    let out := child O c (files w) in
    let w1 := {| files := files w; trace := trace w ++ [EvRun c (files w)] |} in
    let w2 :=
      match output_file c, written out with
      | Some name, Some bytes =>
          {| files := <[name := File bytes]> (files w1);
             trace := trace w1 ++ [EvCreate name] |}
      | _, _ => w1
      end in
    ((exit_error out, stderr out), w2).

(** [log.Printf]. *)
Definition Printf (format : text) (args : list fmt.operand) : M unit :=
  emit (EvLog (fmt.Sprintf format args)).

(** [exec.Command(name, arg...)]. *)
Definition Command (name : text) (args : list text) : Cmd :=
  {| Path := name; Args := name :: args; Env := []; Stdin := NoReader |}.

Definition with_env (c : Cmd) (env : list text) : Cmd :=
  {| Path := Path c; Args := Args c; Env := env; Stdin := Stdin c |}.

Definition with_stdin (c : Cmd) (r : Reader) : Cmd :=
  {| Path := Path c; Args := Args c; Env := Env c; Stdin := r |}.

End calls.
End os.

(** ** The schema handler ([pkg/schema]) *)

Module schema.
Import fmt config os.

Definition LF : text := ["010"%char].

(** [SchemaHandler] manages schema dump and restore operations. *)
Record SchemaHandler := {
  source : DBConfig;
  target : DBConfig
}.

(** The script of [dropExistingObjects], byte for byte. *)
Definition dropScript : text := str "
DO $$ 
DECLARE
    schema_rec RECORD;
BEGIN
    -- Drop all schemas except public and pg_* schemas
    FOR schema_rec IN (
        SELECT schema_name 
        FROM information_schema.schemata 
        WHERE schema_name NOT LIKE 'pg_%' 
        AND schema_name != 'public'
        AND schema_name != 'information_schema'
    ) LOOP
        EXECUTE 'DROP SCHEMA IF EXISTS ' || quote_ident(schema_rec.schema_name) || ' CASCADE';
    END LOOP;
    
    -- Drop all functions in public schema
    FOR schema_rec IN (
        SELECT proname, oidvectortypes(proargtypes) AS argtypes
        FROM pg_proc
        INNER JOIN pg_namespace ON pg_proc.pronamespace = pg_namespace.oid
        WHERE nspname = 'public'
    ) LOOP
        EXECUTE 'DROP FUNCTION IF EXISTS public.' || quote_ident(schema_rec.proname) || '(' || schema_rec.argtypes || ') CASCADE';
    END LOOP;
    
    -- Drop all tables, types and other objects in public schema
    FOR schema_rec IN (
        SELECT tablename 
        FROM pg_tables 
        WHERE schemaname = 'public'
    ) LOOP
        EXECUTE 'DROP TABLE IF EXISTS public.' || quote_ident(schema_rec.tablename) || ' CASCADE';
    END LOOP;
    
    -- Drop all types in public schema
    FOR schema_rec IN (
        SELECT typname 
        FROM pg_type
        INNER JOIN pg_namespace ON pg_type.typnamespace = pg_namespace.oid
        WHERE nspname = 'public'
        AND typtype = 'c'  -- Composite types
    ) LOOP
        EXECUTE 'DROP TYPE IF EXISTS public.' || quote_ident(schema_rec.typname) || ' CASCADE';
    END LOOP;
    
    -- Drop all sequences in public schema
    FOR schema_rec IN (
        SELECT relname 
        FROM pg_class
        INNER JOIN pg_namespace ON pg_class.relnamespace = pg_namespace.oid
        WHERE nspname = 'public'
        AND relkind = 'S'  -- Sequences
    ) LOOP
        EXECUTE 'DROP SEQUENCE IF EXISTS public.' || quote_ident(schema_rec.relname) || ' CASCADE';
    END LOOP;
    
    -- Drop all views in public schema
    FOR schema_rec IN (
        SELECT viewname 
        FROM pg_views 
        WHERE schemaname = 'public'
    ) LOOP
        EXECUTE 'DROP VIEW IF EXISTS public.' || quote_ident(schema_rec.viewname) || ' CASCADE';
    END LOOP;
END $$;
".

Section handler.
Context (O : Oracle).

(** The command line and environment that [dumpSchema] builds
    ([args], [exec.Command], [cmd.Env]). *)
Definition dumpSchema_cmd (s : SchemaHandler) (dumpFilePath : text) : Cmd :=
  let args :=
    [ str "-h"; Host (source s);
      str "-p"; Sprintf (str "%d") [Int (Port (source s))];
      str "-U"; User (source s);
      str "-d"; Database (source s);
      str "--schema-only";
      str "--no-owner";
      str "--no-privileges";
      str "-f"; dumpFilePath ] in
  let cmd := Command (str "pg_dump") args in
  let cmd := with_env cmd (Environ O ++ [Sprintf (str "PGPASSWORD=%s") [Str (Password (source s))]]) in
  let cmd :=
    with_env cmd
      (if negb (bool_decide (SSLMode (source s) = []))
       then Env cmd ++ [Sprintf (str "PGSSLMODE=%s") [Str (SSLMode (source s))]]
       else Env cmd) in
  cmd.

(** [dumpSchema] dumps the schema from the source database to a file. *)
Definition dumpSchema (s : SchemaHandler) (dumpFilePath : text) : M error :=
  '(err, stderr) ← Run O (dumpSchema_cmd s dumpFilePath);
  match err with
  | Some e => mret (Errorf (str "pg_dump failed: %v, stderr: %s") [Str e; Str stderr])
  | None => mret None
  end.

(** The command line and environment that [dropExistingObjects] builds. *)
Definition dropExistingObjects_cmd (s : SchemaHandler) (tempFile : text) : Cmd :=
  let args :=
    [ str "-h"; Host (target s);
      str "-p"; Sprintf (str "%d") [Int (Port (target s))];
      str "-U"; User (target s);
      str "-d"; Database (target s);
      str "-f"; tempFile ] in
  let cmd := Command (str "psql") args in
  let cmd := with_env cmd (Environ O ++ [Sprintf (str "PGPASSWORD=%s") [Str (Password (target s))]]) in
  let cmd :=
    with_env cmd
      (if negb (bool_decide (SSLMode (target s) = []))
       then Env cmd ++ [Sprintf (str "PGSSLMODE=%s") [Str (SSLMode (target s))]]
       else Env cmd) in
  cmd.

(** [dropExistingObjects] drops all existing objects in the target
    database.  ([tempFile.Close()] has no effect in this model.) *)
Definition dropExistingObjects (s : SchemaHandler) : M error :=
  '(tempFile, err) ← CreateTemp O (str "drop-objects-*.sql");
  match err with
  | Some e => mret (Errorf (str "failed to create temp file for drop script: %v") [Str e])
  | None =>
      defer (Remove tempFile) (
        err ← Write O tempFile dropScript;
        match err with
        | Some e => mret (Errorf (str "failed to write drop script to temp file: %v") [Str e])
        | None =>
            '(err, stderr) ← Run O (dropExistingObjects_cmd s tempFile);
            match err with
            | Some e => mret (Errorf (str "dropping objects failed: %v, stderr: %s") [Str e; Str stderr])
            | None => mret None
            end
        end)
  end.

(** [processSchemaFile] modifies SQL statements to make them idempotent. *)
Definition processSchemaFile (input : Reader) (output : text) : M error :=
  '(content, err) ← ReadAll O input;
  match err with
  | Some e => mret (Errorf (str "failed to read input file: %v") [Str e])
  | None =>
      let sqlContent := processSchemaFile_content content in
      err ← Write O output sqlContent;
      match err with
      | Some e => mret (Errorf (str "failed to write to output file: %v") [Str e])
      | None => mret None
      end
  end.

(** The command line, standard input and environment that
    [restoreSchema] builds. *)
Definition restoreSchema_cmd (s : SchemaHandler) (modifiedFile : text) : Cmd :=
  let args :=
    [ str "-h"; Host (target s);
      str "-p"; Sprintf (str "%d") [Int (Port (target s))];
      str "-U"; User (target s);
      str "-d"; Database (target s);
      str "-v"; str "ON_ERROR_STOP=1" ] in
  let cmd := Command (str "psql") args in
  let cmd := with_stdin cmd (FileReader modifiedFile) in
  let cmd := with_env cmd (Environ O ++ [Sprintf (str "PGPASSWORD=%s") [Str (Password (target s))]]) in
  let cmd :=
    with_env cmd
      (if negb (bool_decide (SSLMode (target s) = []))
       then Env cmd ++ [Sprintf (str "PGSSLMODE=%s") [Str (SSLMode (target s))]]
       else Env cmd) in
  cmd.

(** [restoreSchema] restores the schema to the target database from a
    file.  (The [Close] calls, deferred or not, have no effect in this
    model.) *)
Definition restoreSchema (s : SchemaHandler) (dumpFilePath : text) : M error :=
  '(file, err) ← Open O dumpFilePath;
  match err with
  | Some e => mret (Errorf (str "failed to open dump file: %v") [Str e])
  | None =>
      let modifiedDumpPath := dumpFilePath ++ str ".modified" in
      '(modifiedFile, err) ← Create O modifiedDumpPath;
      match err with
      | Some e => mret (Errorf (str "failed to create modified dump file: %v") [Str e])
      | None =>
          defer (Remove modifiedDumpPath) (
            err ← processSchemaFile (FileReader file) modifiedFile;
            match err with
            | Some e => mret (Errorf (str "failed to process schema file: %v") [Str e])
            | None =>
                '(modifiedFile, err) ← Open O modifiedDumpPath;
                match err with
                | Some e => mret (Errorf (str "failed to open modified dump file: %v") [Str e])
                | None =>
                    '(err, stderr) ← Run O (restoreSchema_cmd s modifiedFile);
                    match err with
                    | Some e => mret (Errorf (str "psql restore failed: %v, stderr: %s") [Str e; Str stderr])
                    | None => mret None
                    end
                end
            end)
      end
  end.

(** [DumpAndRestoreSchema] performs a schema-only dump from the source
    database and restores it to the target database. *)
Definition DumpAndRestoreSchema (s : SchemaHandler) : M error :=
  '(tempDir, err) ← MkdirTemp O (str "pg-migration-*");
  match err with
  | Some e => mret (Errorf (str "failed to create temp directory: %v") [Str e])
  | None =>
      defer (RemoveAll tempDir) (
        let timestamp := Now O in
        let dumpFilePath := Join tempDir (Sprintf (str "schema-dump-%s.sql") [Str timestamp]) in
        err ← dumpSchema s dumpFilePath;
        match err with
        | Some e => mret (Errorf (str "failed to dump schema: %v") [Str e])
        | None =>
            Printf (str "Schema dumped successfully to: %s" ++ LF) [Str dumpFilePath];;
            err ← dropExistingObjects s;
            match err with
            | Some e => mret (Errorf (str "failed to drop existing objects: %v") [Str e])
            | None =>
                err ← restoreSchema s dumpFilePath;
                match err with
                | Some e => mret (Errorf (str "failed to restore schema: %v") [Str e])
                | None =>
                    Printf (str "Schema restored successfully to target database" ++ LF) [];;
                    mret None
                end
            end
        end)
  end.

(** [DumpSchemaToFile] dumps the schema to a specified file path. *)
Definition DumpSchemaToFile (s : SchemaHandler) (filePath : text) : M error :=
  dumpSchema s filePath.

(** [RestoreSchemaFromFile] restores the schema from a specified file
    path. *)
Definition RestoreSchemaFromFile (s : SchemaHandler) (filePath : text) : M error :=
  err ← dropExistingObjects s;
  match err with
  | Some e => mret (Errorf (str "failed to drop existing objects: %v") [Str e])
  | None => restoreSchema s filePath
  end.

(** The command line, standard input and environment that
    [RestoreSchemaFromReader] builds. *)
Definition RestoreSchemaFromReader_cmd (s : SchemaHandler) (content : text) : Cmd :=
  let args :=
    [ str "-h"; Host (target s);
      str "-p"; Sprintf (str "%d") [Int (Port (target s))];
      str "-U"; User (target s);
      str "-d"; Database (target s);
      str "-v"; str "ON_ERROR_STOP=1" ] in
  let args :=
    if negb (bool_decide (SSLMode (target s) = []))
    then args ++ [Sprintf (str "--sslmode=%s") [Str (SSLMode (target s))]]
    else args in
  let cmd := Command (str "psql") args in
  let cmd := with_stdin cmd (StringReader content) in
  let cmd := with_env cmd (Environ O ++ [Sprintf (str "PGPASSWORD=%s") [Str (Password (target s))]]) in
  cmd.

(** [RestoreSchemaFromReader] restores the schema to the target database
    from a reader. *)
Definition RestoreSchemaFromReader (s : SchemaHandler) (reader : Reader) : M error :=
  err ← dropExistingObjects s;
  match err with
  | Some e => mret (Errorf (str "failed to drop existing objects: %v") [Str e])
  | None =>
      '(buf, err) ← ReadAll O reader;
      match err with
      | Some e => mret (Errorf (str "failed to read input: %v") [Str e])
      | None =>
          let content := RestoreSchemaFromReader_content buf in
          '(err, stderr) ← Run O (RestoreSchemaFromReader_cmd s content);
          match err with
          | Some e => mret (Errorf (str "psql restore failed: %v, stderr: %s") [Str e; Str stderr])
          | None => mret None
          end
      end
  end.

End handler.

(** A run from a file system with an empty trace. *)
Definition start (fs : gmap text Node) : World := {| files := fs; trace := [] |}.

End schema.

(** ** A program logic for the handler *)

(** [wp m Q w]: run from [w], the program [m] returns a value and a world
    that satisfy [Q].  Programs of [os.M] are total. *)
Definition wp {A} (m : os.M A) (Q : A -> os.World -> Prop) (w : os.World) : Prop :=
  Q (m w).1 (m w).2.

(** ** Reading a trace *)

Module observe.
Import os.

(** The four steps of the specification. *)
Inductive Step := Dumper | Rewriter | Resetter | Restorer.

#[global] Instance Step_eq_dec : EqDecision Step.
Proof. solve_decision. Defined.

(** [strings.HasSuffix(s, suffix)]. *)
Definition HasSuffix (s suffix : text) : bool :=
  strings.HasPrefix (rev s) (rev suffix).

(** The step an event belongs to, read off the event itself: running
    [pg_dump] is the dump; running [psql] on a script file (nothing on
    its standard input) is the reset, running it with the script on its
    standard input is the restore; writing a [.modified] file is the
    rewrite.  The other events belong to no step. *)
Definition step_of (e : Event) : option Step :=
  match e with
  | EvRun c _ =>
      if bool_decide (Path c = str "pg_dump") then Some Dumper
      else if bool_decide (Path c = str "psql") then
        match Stdin c with
        | NoReader => Some Resetter
        | _ => Some Restorer
        end
      else None
  | EvWrite name _ => if HasSuffix name (str ".modified") then Some Rewriter else None
  | _ => None
  end.

Definition steps (tr : list Event) : list Step := omap step_of tr.

(** The external programs that were run, each with the file system it
    saw. *)
Definition runs (tr : list Event) : list (Cmd * gmap text Node) :=
  omap (fun e => match e with EvRun c fs => Some (c, fs) | _ => None end) tr.

(** The names of the directories and files that were created. *)
Definition created (tr : list Event) : list text :=
  omap (fun e => match e with
                 | EvMkdir name | EvCreate name => Some name
                 | _ => None
                 end) tr.

(** The message of the error that the orchestration returns when the
    external program of a step fails with the error [e], having written
    [d] to its standard error. *)
Definition step_error (st : Step) (e d : text) : text :=
  match st with
  | Dumper =>
      str "failed to dump schema: pg_dump failed: " ++ e ++ str ", stderr: " ++ d
  | Resetter =>
      str "failed to drop existing objects: dropping objects failed: " ++ e
      ++ str ", stderr: " ++ d
  | Restorer =>
      str "failed to restore schema: psql restore failed: " ++ e ++ str ", stderr: " ++ d
  | Rewriter => []
  end.

(** The commands that were run. *)
Definition commands (tr : list Event) : list Cmd := map fst (runs tr).

(** The events that only release storage. *)
Definition is_cleanup (e : Event) : bool :=
  match e with
  | EvRemove _ | EvRemoveAll _ => true
  | _ => false
  end.

End observe.

(** ** What the handler passes to the external programs *)

Module passed.
Import fmt config os.

(** The connection parameters of an endpoint as they are passed on a
    command line; the password is not among them. *)
Definition connection_flags (c : DBConfig) : list text :=
  [ str "-h"; Host c; str "-p"; itoa (Port c); str "-U"; User c; str "-d"; Database c ].

(** The environment of a child process: the environment of the handler,
    the password of the endpoint and, when it has one, its SSL mode. *)
Definition child_env (O : Oracle) (c : DBConfig) : list text :=
  Environ O ++ [str "PGPASSWORD=" ++ Password c]
  ++ (if bool_decide (SSLMode c = []) then [] else [str "PGSSLMODE=" ++ SSLMode c]).

(** The descriptor [c] with another password. *)
Definition with_password (c : DBConfig) (password : text) : DBConfig :=
  {| Host := Host c; Port := Port c; User := User c; Password := password;
     Database := Database c; SSLMode := SSLMode c |}.

(** The name of the dump file of [DumpAndRestoreSchema]. *)
Definition dump_file (O : Oracle) : text :=
  Join (temp_name O (str "pg-migration-*"))
       (Sprintf (str "schema-dump-%s.sql") [Str (Now O)]).

(** The name of the file that holds the script of the reset. *)
Definition script_file (O : Oracle) : text := temp_name O (str "drop-objects-*.sql").

End passed.

(** ** The script of the reset, read as a block of loops *)

Module sql.

(** The words of a script: maximal runs of bytes other than blanks, a
    quoted literal being one word with its quotes; [--] starts a comment
    that runs to the end of the line and yields no word. *)
Inductive Mode := Code | Quoted | Comment.

Definition is_blank (c : ascii) : bool :=
  Ascii.eqb c " " || Ascii.eqb c "010" || Ascii.eqb c "009" || Ascii.eqb c "013".

Definition flush (word : text) (k : list text) : list text :=
  match word with
  | [] => k
  | _ :: _ => rev word :: k
  end.

(** [word] holds the bytes of the current word, last byte first. *)
Fixpoint words_from (mode : Mode) (word : text) (s : text) : list text :=
  match s with
  | [] => flush word []
  | c :: s' =>
      match mode with
      | Comment =>
          if Ascii.eqb c "010" then words_from Code [] s' else words_from Comment [] s'
      | Quoted =>
          if Ascii.eqb c "'" then flush (c :: word) (words_from Code [] s')
          else words_from Quoted (c :: word) s'
      | Code =>
          if is_blank c then flush word (words_from Code [] s')
          else if Ascii.eqb c "'" then flush word (words_from Quoted [c] s')
          else if Ascii.eqb c "-" then
            match s' with
            | d :: s'' =>
                if Ascii.eqb d "-" then flush word (words_from Comment [] s'')
                else words_from Code (c :: word) s'
            | [] => words_from Code (c :: word) s'
            end
          else words_from Code (c :: word) s'
      end
  end.

Definition words (s : text) : list text := words_from Code [] s.

(** What a loop of the reset block enumerates. *)
Inductive Kind := Schemas | Functions | Tables | CompositeTypes | Sequences | Views.

(** A condition of the enumeration: a column compared with a literal. *)
Inductive Cond :=
| NotLike (column pattern : text)
| NotEqual (column literal : text)
| Equal (column literal : text).

(** An operand of the [||] that builds the statement to execute. *)
Inductive Piece :=
| Lit (s : text)
| QuoteIdent (column : text)
| Column (column : text).

Record Loop := {
  kind : Kind;
  columns : list text;
  relation : list text;
  conditions : list Cond;
  statement : list Piece
}.

Definition quoted (s : text) : text := str "'" ++ s ++ str "'".

Definition cond_words (c : Cond) : list text :=
  match c with
  | NotLike column pattern => [column; str "NOT"; str "LIKE"; quoted pattern]
  | NotEqual column literal => [column; str "!="; quoted literal]
  | Equal column literal => [column; str "="; quoted literal]
  end.

Fixpoint where_words (keyword : text) (cs : list Cond) : list text :=
  match cs with
  | [] => []
  | c :: cs' => keyword :: cond_words c ++ where_words (str "AND") cs'
  end.

Definition piece_word (p : Piece) : text :=
  match p with
  | Lit s => quoted s
  | QuoteIdent column => str "quote_ident(schema_rec." ++ column ++ str ")"
  | Column column => str "schema_rec." ++ column
  end.

Fixpoint concat_words (ps : list Piece) : list text :=
  match ps with
  | [] => []
  | [p] => [piece_word p]
  | p :: ps' => piece_word p :: str "||" :: concat_words ps'
  end.

Definition loop_words (l : Loop) : list text :=
  [str "FOR"; str "schema_rec"; str "IN"; str "("; str "SELECT"] ++ columns l
  ++ [str "FROM"] ++ relation l ++ where_words (str "WHERE") (conditions l)
  ++ [str ")"; str "LOOP"; str "EXECUTE"] ++ concat_words (statement l)
  ++ [str ";"; str "END"; str "LOOP;"].

(** A [DO] block that declares the loop variable and runs the loops one
    after the other. *)
Definition block_words (loops : list Loop) : list text :=
  [str "DO"; str "$$"; str "DECLARE"; str "schema_rec"; str "RECORD;"; str "BEGIN"]
  ++ concat (map loop_words loops) ++ [str "END"; str "$$;"].

(** The statement a loop executes for a row, [quote_ident] and the row
    being given. *)
Definition executed (quote_ident : text -> text) (row : text -> text) (l : Loop) : text :=
  concat (map (fun p => match p with
                        | Lit s => s
                        | QuoteIdent column => quote_ident (row column)
                        | Column column => row column
                        end) (statement l)).

(** The reset block of [dropExistingObjects], loop by loop. *)
Definition reset_block : list Loop :=
  [ {| kind := Schemas;
       columns := [str "schema_name"];
       relation := [str "information_schema.schemata"];
       conditions := [ NotLike (str "schema_name") (str "pg_%");
                       NotEqual (str "schema_name") (str "public");
                       NotEqual (str "schema_name") (str "information_schema") ];
       statement := [ Lit (str "DROP SCHEMA IF EXISTS "); QuoteIdent (str "schema_name");
                      Lit (str " CASCADE") ] |};
    {| kind := Functions;
       columns := [str "proname,"; str "oidvectortypes(proargtypes)"; str "AS"; str "argtypes"];
       relation := [ str "pg_proc"; str "INNER"; str "JOIN"; str "pg_namespace"; str "ON";
                     str "pg_proc.pronamespace"; str "="; str "pg_namespace.oid" ];
       conditions := [ Equal (str "nspname") (str "public") ];
       statement := [ Lit (str "DROP FUNCTION IF EXISTS public."); QuoteIdent (str "proname");
                      Lit (str "("); Column (str "argtypes"); Lit (str ") CASCADE") ] |};
    {| kind := Tables;
       columns := [str "tablename"];
       relation := [str "pg_tables"];
       conditions := [ Equal (str "schemaname") (str "public") ];
       statement := [ Lit (str "DROP TABLE IF EXISTS public."); QuoteIdent (str "tablename");
                      Lit (str " CASCADE") ] |};
    {| kind := CompositeTypes;
       columns := [str "typname"];
       relation := [ str "pg_type"; str "INNER"; str "JOIN"; str "pg_namespace"; str "ON";
                     str "pg_type.typnamespace"; str "="; str "pg_namespace.oid" ];
       conditions := [ Equal (str "nspname") (str "public"); Equal (str "typtype") (str "c") ];
       statement := [ Lit (str "DROP TYPE IF EXISTS public."); QuoteIdent (str "typname");
                      Lit (str " CASCADE") ] |};
    {| kind := Sequences;
       columns := [str "relname"];
       relation := [ str "pg_class"; str "INNER"; str "JOIN"; str "pg_namespace"; str "ON";
                     str "pg_class.relnamespace"; str "="; str "pg_namespace.oid" ];
       conditions := [ Equal (str "nspname") (str "public"); Equal (str "relkind") (str "S") ];
       statement := [ Lit (str "DROP SEQUENCE IF EXISTS public."); QuoteIdent (str "relname");
                      Lit (str " CASCADE") ] |};
    {| kind := Views;
       columns := [str "viewname"];
       relation := [str "pg_views"];
       conditions := [ Equal (str "schemaname") (str "public") ];
       statement := [ Lit (str "DROP VIEW IF EXISTS public."); QuoteIdent (str "viewname");
                      Lit (str " CASCADE") ] |} ].

End sql.

(** ** What the claims say of a command *)

Module said.
Import fmt config os schema passed.

(** The command line and the environment of a command of the
    orchestration: the connection parameters of its endpoint, its own
    options, and the password in the environment only. *)
Definition well_passed (O : Oracle) (s : SchemaHandler) (c : Cmd) : Prop :=
  (Args c = str "pg_dump" :: connection_flags (source s)
            ++ [str "--schema-only"; str "--no-owner"; str "--no-privileges";
                str "-f"; dump_file O]
   /\ Env c = child_env O (source s))
  \/ (Args c = str "psql" :: connection_flags (target s) ++ [str "-f"; script_file O]
      /\ Env c = child_env O (target s))
  \/ (Args c = str "psql" :: connection_flags (target s)
              ++ [str "-v"; str "ON_ERROR_STOP=1"]
      /\ Env c = child_env O (target s)).

(** What the [psql] of the reset is given: the target, and the file that
    holds the script. *)
Definition reset_submitted (O : Oracle) (s : SchemaHandler)
    (run : Cmd * gmap text Node) : Prop :=
  Args run.1 = str "psql" :: connection_flags (target s) ++ [str "-f"; script_file O]
  /\ run.2 !! script_file O = Some (File dropScript).

(** What a command of [RestoreSchemaFromReader] reads on its standard
    input: nothing, or the text [t]. *)
Definition reads (t : text) (c : Cmd) : Prop :=
  Stdin c = NoReader \/ Stdin c = StringReader t.

End said.

(** ** A sample run *)

Module sample.
Import config os schema.

Definition src : DBConfig :=
  {| Host := str "src.example.com"; Port := 5432; User := str "alice";
     Password := str "s3cret"; Database := str "app"; SSLMode := str "require" |}.

Definition dst : DBConfig :=
  {| Host := str "dst.example.com"; Port := 5433; User := str "bob";
     Password := str "hunter2"; Database := str "app2"; SSLMode := [] |}.

Definition handler : SchemaHandler := {| source := src; target := dst |}.

Definition dump : text := str "CREATE TABLE t (id int);".

(** Every system call succeeds, [pg_dump] writes [dump] and both
    [psql] runs succeed. *)
Definition quiet : Oracle :=
  {| Environ := [str "PATH=/usr/bin"];
     TempDir := str "/tmp";
     Now := str "20240101-120000";
     random := fun _ => str "1234567";
     fault := fun _ => None;
     child := fun c _ =>
       {| exit_error := None; stderr := [];
          written := if bool_decide (Path c = str "pg_dump") then Some dump else None |} |}.

(** The same, but [pg_dump] cannot reach the source host. *)
Definition unreachable : Oracle :=
  {| Environ := Environ quiet;
     TempDir := TempDir quiet;
     Now := Now quiet;
     random := random quiet;
     fault := fault quiet;
     child := fun c fs =>
       if bool_decide (Path c = str "pg_dump")
       then {| exit_error := Some (str "exit status 1");
               stderr := str "pg_dump: error: could not translate host name";
               written := None |}
       else child quiet c fs |}.

End sample.

(** ** The part of Go's [database/sql] and [log] packages used by the repository *)

Module sqldb.

(** What is done to the database servers and to the log: a handle is
    known by its data source name. *)
Inductive Event :=
| EvOpen (driver dsn : text)
| EvQuery (db query : text) (args : list text)
| EvExec (db query : text) (args : list text)
| EvClose (db : text)
| EvLog (line : text).

(** What the servers answer, given all that was done before: whether a
    handle can be opened, the row of a query that selects a boolean or a
    text, and the error of a statement. *)
Record Server := {
  connect : text -> text -> error;
  answer_bool : list Event -> text -> text -> list text -> bool * error;
  answer_text : list Event -> text -> text -> list text -> text * error;
  result : list Event -> text -> text -> list text -> error
}.

Definition M (A : Type) : Type := list Event -> A * list Event.

#[global] Instance M_ret : MRet M := fun A a tr => (a, tr).
#[global] Instance M_bind : MBind M :=
  fun A B f m tr => let '(a, tr') := m tr in f a tr'.

Definition emit (e : Event) : M unit := fun tr => (tt, tr ++ [e]).

Definition defer {A} (cleanup : M unit) (body : M A) : M A :=
  r ← body; cleanup;; mret r.

Section calls.
Context (S : Server).

(** [sql.Open(driverName, dataSourceName)]. *)
Definition Open (driver dsn : text) : M (text * error) :=
  match connect S driver dsn with
  | Some e => mret ([], Some e)
  | None => emit (EvOpen driver dsn);; mret (dsn, None)
  end.

(** [db.Close()]; the caller ignores its result. *)
Definition Close (db : text) : M unit := emit (EvClose db).

(** [db.QueryRow(query, args...).Scan(&b)] for a [bool] [b]. *)
Definition QueryRow_bool (db query : text) (args : list text) : M (bool * error) :=
  fun tr => (answer_bool S tr db query args, tr ++ [EvQuery db query args]).

(** [db.QueryRow(query, args...).Scan(&s)] for a [string] [s]. *)
Definition QueryRow_text (db query : text) (args : list text) : M (text * error) :=
  fun tr => (answer_text S tr db query args, tr ++ [EvQuery db query args]).

(** [db.Exec(query, args...)]; the callers drop the [sql.Result]. *)
Definition Exec (db query : text) (args : list text) : M error :=
  fun tr => (result S tr db query args, tr ++ [EvExec db query args]).

End calls.

(** [log.Println(s)]. *)
Definition Println (s : text) : M unit := emit (EvLog (s ++ schema.LF)).

(** [log.Printf(format, args...)]: a line feed is added to a line that
    does not end with one. *)
Definition Printf (format : text) (args : list fmt.operand) : M unit :=
  let s := fmt.Sprintf format args in
  emit (EvLog (if observe.HasSuffix s schema.LF then s else s ++ schema.LF)).

End sqldb.

(** ** Setting up replication ([package replication]) *)

Module replication.
Import fmt config sqldb.

Definition TAB : text := ["009"%char].

(** [Replicator] holds the source and target database configuration. *)
Record Replicator := {
  source : DBConfig;
  target : DBConfig
}.

(** [NewReplicator] creates a new Replicator instance. *)
Definition NewReplicator (source target : DBConfig) : Replicator :=
  {| source := source; target := target |}.

Definition createPubQuery : text :=
  schema.LF ++ TAB ++ TAB ++
  str "SELECT * FROM aiven_extras.pg_create_publication_for_all_tables($1, 'INSERT,UPDATE,DELETE');"
  ++ schema.LF ++ TAB.

Definition createSubQuery : text :=
  schema.LF ++ TAB ++ TAB ++
  str "SELECT * FROM aiven_extras.pg_create_subscription($1, $2, $3, $4, true, true);"
  ++ schema.LF ++ TAB.

Section replicator.
Context (S : Server).

(** [checkExtensionInstalled] verifies if a given extension (e.g.,
    aiven_extras) is installed. *)
Definition checkExtensionInstalled (db extName : text) : M (bool * error) :=
  let query := str "SELECT EXISTS(SELECT 1 FROM pg_extension WHERE extname = $1);" in
  '(exists_, err) ← QueryRow_bool S db query [extName];
  match err with
  | Some e => mret (false, Some e)
  | None => mret (exists_, None)
  end.

(** [installExtension] attempts to install the specified extension in
    the database. *)
Definition installExtension (db extName : text) : M error :=
  let query := Sprintf (str "CREATE EXTENSION IF NOT EXISTS %s;") [Str extName] in
  Exec S db query [].

(** [checkWalLevel] verifies if wal_level is set to 'logical'. *)
Definition checkWalLevel (db : text) : M (bool * error) :=
  let query := str "SHOW wal_level;" in
  '(walLevel, err) ← QueryRow_text S db query [];
  match err with
  | Some e => mret (false, Some e)
  | None => mret (bool_decide (walLevel = str "logical"), None)
  end.

(** [SetupReplication] sets up logical replication between the source
    and target databases using the Aiven Extras extension. *)
Definition SetupReplication (r : Replicator) : M error :=
  '(srcDB, err) ← Open S (str "postgres") (ConnectionString (source r));
  match err with
  | Some e => mret (Errorf (str "failed to connect to source database: %v") [Str e])
  | None =>
      defer (Close srcDB) (
        '(installed, err) ← checkExtensionInstalled srcDB (str "aiven_extras");
        match err with
        | Some e =>
            mret (Errorf (str "failed to check aiven_extras extension on source: %v") [Str e])
        | None =>
            err ←
              (if negb installed then
                 Println (str "aiven_extras extension not found on source database, attempting to install it...");;
                 err ← installExtension srcDB (str "aiven_extras");
                 match err with
                 | Some e =>
                     mret (Errorf (str "failed to install aiven_extras extension on source: %v") [Str e])
                 | None =>
                     Println (str "Successfully installed aiven_extras extension on source database.");;
                     mret None
                 end
               else mret None);
            match err with
            | Some e => mret (Some e)
            | None =>
                let pubName := str "aiven_db_migrate_pub" in
                let dropPubQuery := Sprintf (str "DROP PUBLICATION IF EXISTS %s;") [Str pubName] in
                err ← Exec S srcDB dropPubQuery [];
                match err with
                | Some e => mret (Errorf (str "failed to drop existing publication: %v") [Str e])
                | None =>
                    Printf (str "Dropped existing publication '%s' (if any) on source database.")
                      [Str pubName];;
                    err ← Exec S srcDB createPubQuery [pubName];
                    match err with
                    | Some e =>
                        mret (Errorf (str "failed to create publication on source: %v") [Str e])
                    | None =>
                        Printf (str "Publication '%s' created on source database.") [Str pubName];;
                        '(tgtDB, err) ← Open S (str "postgres") (ConnectionString (target r));
                        match err with
                        | Some e =>
                            mret (Errorf (str "failed to connect to target database: %v") [Str e])
                        | None =>
                            defer (Close tgtDB) (
                              '(installed, err) ← checkExtensionInstalled tgtDB (str "aiven_extras");
                              match err with
                              | Some e =>
                                  mret (Errorf (str "failed to check aiven_extras extension on target: %v") [Str e])
                              | None =>
                                  err ←
                                    (if negb installed then
                                       Println (str "aiven_extras extension not found on target database, attempting to install it...");;
                                       err ← installExtension tgtDB (str "aiven_extras");
                                       match err with
                                       | Some e =>
                                           mret (Errorf (str "failed to install aiven_extras extension on target: %v") [Str e])
                                       | None =>
                                           Println (str "Successfully installed aiven_extras extension on target database.");;
                                           mret None
                                       end
                                     else mret None);
                                  match err with
                                  | Some e => mret (Some e)
                                  | None =>
                                      '(_, err) ← checkWalLevel tgtDB;
                                      match err with
                                      | Some e =>
                                          mret (Errorf (str "failed to check wal_level on target: %v") [Str e])
                                      | None =>
                                          let subName := str "aiven_db_migrate_sub" in
                                          let slotName := str "aiven_db_migrate_slot" in
                                          let dropSubQuery :=
                                            Sprintf (str "DROP SUBSCRIPTION IF EXISTS %s;") [Str subName] in
                                          err ← Exec S tgtDB dropSubQuery [];
                                          match err with
                                          | Some e =>
                                              mret (Errorf (str "failed to drop existing subscription: %v") [Str e])
                                          | None =>
                                              Printf (str "Dropped existing subscription '%s' (if any) on target database.")
                                                [Str subName];;
                                              let sourceConnStrForSub := ConnectionString (source r) in
                                              err ← Exec S tgtDB createSubQuery
                                                      [subName; sourceConnStrForSub; pubName; slotName];
                                              match err with
                                              | Some e =>
                                                  mret (Errorf (str "failed to create subscription on target: %v") [Str e])
                                              | None =>
                                                  Printf (str "Subscription '%s' created on target database. Initial data copy should now be in progress." ++ schema.LF)
                                                    [Str subName];;
                                                  mret None
                                              end
                                          end
                                      end
                                  end
                              end)
                        end
                    end
                end
            end
        end)
  end.

End replicator.

(** The statements that were sent, in order: the handle, the text and
    the parameters of each. *)
Definition statements (tr : list Event) : list (text * text * list text) :=
  omap (fun e => match e with
                 | EvQuery db q args | EvExec db q args => Some (db, q, args)
                 | _ => None
                 end) tr.

(** The handles that were opened, and those that were closed, in order. *)
Definition opened (tr : list Event) : list text :=
  omap (fun e => match e with EvOpen _ dsn => Some dsn | _ => None end) tr.

Definition closed (tr : list Event) : list text :=
  omap (fun e => match e with EvClose db => Some db | _ => None end) tr.

(** What the server answered to the checks for the extension, in the
    order of the checks: each answer is the one that the server gives to
    the query after all that was done before it. *)
Fixpoint found_from (S : Server) (pre tr : list Event) : list bool :=
  match tr with
  | [] => []
  | e :: tr' =>
      match e with
      | EvQuery db q args =>
          if bool_decide
               (q = str "SELECT EXISTS(SELECT 1 FROM pg_extension WHERE extname = $1);")
          then (answer_bool S pre db q args).1 :: found_from S (pre ++ [e]) tr'
          else found_from S (pre ++ [e]) tr'
      | _ => found_from S (pre ++ [e]) tr'
      end
  end.

Definition found (S : Server) (tr : list Event) : list bool := found_from S [] tr.

(** The statements of a complete run, in order; the extension is
    installed on a side when [install_source] (for the source) or
    [install_target] (for the target) is set. *)
Definition plan (r : Replicator) (install_source install_target : bool)
  : list (text * text * list text) :=
  let src := ConnectionString (source r) in
  let tgt := ConnectionString (target r) in
  let check := str "SELECT EXISTS(SELECT 1 FROM pg_extension WHERE extname = $1);" in
  let install := str "CREATE EXTENSION IF NOT EXISTS aiven_extras;" in
  [ (src, check, [str "aiven_extras"]) ]
  ++ (if install_source then [ (src, install, []) ] else [])
  ++ [ (src, str "DROP PUBLICATION IF EXISTS aiven_db_migrate_pub;", []);
       (src, createPubQuery, [str "aiven_db_migrate_pub"]);
       (tgt, check, [str "aiven_extras"]) ]
  ++ (if install_target then [ (tgt, install, []) ] else [])
  ++ [ (tgt, str "SHOW wal_level;", []);
       (tgt, str "DROP SUBSCRIPTION IF EXISTS aiven_db_migrate_sub;", []);
       (tgt, createSubQuery,
        [str "aiven_db_migrate_sub"; src; str "aiven_db_migrate_pub";
         str "aiven_db_migrate_slot"]) ].

End replication.

(** [holds m Q tr]: run after [tr], the program [m] returns a value and
    a trace that satisfy [Q].  Programs of [sqldb.M] are total. *)
Definition holds {A} (m : sqldb.M A) (Q : A -> list sqldb.Event -> Prop)
    (tr : list sqldb.Event) : Prop :=
  Q (m tr).1 (m tr).2.

(** ** What the code shows besides *)

Module shown.
Import fmt config os schema passed.

(** [finished rules]: a rewritten prefix cannot complete a source prefix
    that starts before it, and a source prefix is found in a rewritten
    prefix only at its first byte and only for the rule of that prefix. *)
Definition finished (rules : list (text * text)) : bool :=
  forallb (fun r =>
    forallb (fun r' =>
      forallb (fun k => negb (compat (drop k r.1) r'.2)) (seq 1 (length r.1 - 1)) &&
      forallb (fun i => negb (compat r.1 (drop i r'.2))
                        || (Nat.eqb i 0 && bool_decide (r = r')))
              (seq 0 (length r'.2)))
      rules) rules.

(** What the rules add to a document: for each rule, the bytes that its
    rewritten prefix has more than its source prefix, once per instance
    that [strings.Count] counts. *)
Fixpoint added (rules : list (text * text)) (t : text) : nat :=
  match rules with
  | [] => 0
  | r :: rules' => (length r.2 - length r.1) * strings.Count t r.1 + added rules' t
  end.

(** The texts [elems] with [sep] between them. *)
Fixpoint joined (elems : list text) (sep : text) : text :=
  match elems with
  | [] => []
  | [e] => e
  | e :: elems' => e ++ sep ++ joined elems' sep
  end.

(** The name of the variable of the target that stands for a variable
    of the source. *)
Definition retarget (name : text) : text :=
  if strings.HasPrefix name (str "SOURCE_DB_") then str "TARGET_DB_" ++ drop 10 name
  else name.

(** What a loader returns: a configuration that passes validation, has
    a port and an SSL mode, and whose connection string carries that
    SSL mode; or an error and no configuration. *)
Definition usable (r : option DBConfig * error) : Prop :=
  match r with
  | (Some c, None) =>
      validateConfig c = None /\ Port c <> 0%Z /\ SSLMode c <> [] /\
      ConnectionString c =
        Sprintf (str "host=%s port=%d user=%s password=%s dbname=%s sslmode=%s")
          [Str (Host c); Int (Port c); Str (User c); Str (Password c);
           Str (Database c); Str (SSLMode c)]
  | (None, Some _) => True
  | _ => False
  end.

(** What a command is fed on its standard input, if it has one. *)
Definition fed (t : text) (run : Cmd * gmap text Node) : Prop :=
  Stdin run.1 = NoReader \/ contents (Stdin run.1) run.2 = t.

(** What the restore of the orchestration is fed: the rewriting of the
    bytes that [pg_dump] wrote. *)
Definition fed_dump (O : Oracle) (s : SchemaHandler) (fs : gmap text Node)
    (run : Cmd * gmap text Node) : Prop :=
  Stdin run.1 = NoReader
  \/ exists bytes,
       written (child O (dumpSchema_cmd O s (dump_file O))
                  (<[temp_name O (str "pg-migration-*") := Dir]> fs)) = Some bytes
       /\ contents (Stdin run.1) run.2 = processSchemaFile_content bytes.

(** What [RestoreSchemaFromReader] passes to its commands: the reset as
    everywhere; the restore with the SSL mode of the target as an
    argument and not in the environment. *)
Definition reader_passed (O : Oracle) (s : SchemaHandler) (c : Cmd) : Prop :=
  (Args c = str "psql" :: connection_flags (target s) ++ [str "-f"; script_file O]
   /\ Env c = child_env O (target s))
  \/ (Args c = str "psql" :: connection_flags (target s)
              ++ [str "-v"; str "ON_ERROR_STOP=1"]
              ++ (if bool_decide (SSLMode (target s) = []) then []
                  else [str "--sslmode=" ++ SSLMode (target s)])
      /\ Env c = Environ O ++ [str "PGPASSWORD=" ++ Password (target s)]).

(** A server that answers every call without an error, and whose WAL
    level is not [logical]. *)
Definition replica_server : sqldb.Server :=
  {| sqldb.connect := fun _ _ => None;
     sqldb.answer_bool := fun _ _ _ _ => (true, None);
     sqldb.answer_text := fun _ _ _ _ => (str "replica", None);
     sqldb.result := fun _ _ _ _ => None |}.

(** A server that answers every call without an error and that has the
    extension on neither side. *)
Definition bare_server : sqldb.Server :=
  {| sqldb.connect := fun _ _ => None;
     sqldb.answer_bool := fun _ _ _ _ => (false, None);
     sqldb.answer_text := fun _ _ _ _ => (str "logical", None);
     sqldb.result := fun _ _ _ _ => None |}.

(** No call to a server returns an error. *)
Definition obliging (S : sqldb.Server) : Prop :=
  (forall driver dsn, sqldb.connect S driver dsn = None) /\
  (forall tr db q args, (sqldb.answer_bool S tr db q args).2 = None) /\
  (forall tr db q args, (sqldb.answer_text S tr db q args).2 = None) /\
  (forall tr db q args, sqldb.result S tr db q args = None).

End shown.


(** * Properties *)

(** ** Facts about [strings.HasPrefix], [strings.Index] and [strings.Replace] *)

Import strings.

Lemma HasPrefix_nil s : HasPrefix s [] = true.
Proof. by destruct s. Qed.

Lemma HasPrefix_app p r : HasPrefix (p ++ r) p = true.
Proof.
  induction p as [|c p IH]; simpl; [apply HasPrefix_nil|].
  by rewrite Ascii.eqb_refl, IH.
Qed.

Lemma HasPrefix_split s p : HasPrefix s p = true -> s = p ++ drop (length p) s.
Proof.
  revert s; induction p as [|c p IH]; intros [|d s]; simpl; try done.
  intros [Hc Hp]%andb_prop. apply Ascii.eqb_eq in Hc as ->.
  f_equal. by apply IH.
Qed.

Lemma HasPrefix_true s p : HasPrefix s p = true <-> exists r, s = p ++ r.
Proof.
  split.
  - intros H; eexists; by apply HasPrefix_split.
  - intros [r ->]; apply HasPrefix_app.
Qed.

Lemma HasPrefix_length s p : HasPrefix s p = true -> length p <= length s.
Proof. intros [r ->]%HasPrefix_true. rewrite length_app. lia. Qed.

(** Whether [p] matches at the head of [u ++ x] is decided by [u] alone
    once [u] is at least as long as [p]. *)
Lemma HasPrefix_app_long u x y p :
  length p <= length u -> HasPrefix (u ++ x) p = HasPrefix (u ++ y) p.
Proof.
  revert u; induction p as [|c p IH]; intros u Hl.
  - by rewrite !HasPrefix_nil.
  - destruct u as [|d u]; simpl in *; [lia|].
    destruct (Ascii.eqb c d); simpl; [apply IH; lia | done].
Qed.

Lemma Index_nil substr :
  Index [] substr = if HasPrefix [] substr then Some 0 else None.
Proof. done. Qed.

Lemma Index_cons c s substr :
  Index (c :: s) substr =
    if HasPrefix (c :: s) substr then Some 0 else S <$> Index s substr.
Proof. done. Qed.

Lemma Index_Some_bound s substr i :
  Index s substr = Some i -> i + length substr <= length s.
Proof.
  revert i; induction s as [|c s IH]; intros i.
  - rewrite Index_nil. destruct (HasPrefix [] substr) eqn:Hp; [|done].
    intros [= <-]. apply HasPrefix_length in Hp. simpl in *; lia.
  - rewrite Index_cons. destruct (HasPrefix (c :: s) substr) eqn:Hp.
    + intros [= <-]. apply HasPrefix_length in Hp. simpl in *; lia.
    + destruct (Index s substr) as [j|]; simpl; [|done].
      intros [= <-]. specialize (IH j eq_refl). lia.
Qed.

Lemma Index_Some_HasPrefix s substr i :
  Index s substr = Some i -> HasPrefix (drop i s) substr = true.
Proof.
  revert i; induction s as [|c s IH]; intros i.
  - rewrite Index_nil. destruct (HasPrefix [] substr) eqn:Hp; [|done].
    by intros [= <-].
  - rewrite Index_cons. destruct (HasPrefix (c :: s) substr) eqn:Hp.
    + by intros [= <-].
    + destruct (Index s substr) as [j|]; simpl; [|done].
      intros [= <-]. by apply IH.
Qed.

(** When [p] is longer than [u], matching [p] at the head of [u ++ x]
    means matching what is left of [p] at the head of [x]. *)
Lemma HasPrefix_app_short u x p :
  length u < length p -> HasPrefix (u ++ x) p = true ->
  HasPrefix x (drop (length u) p) = true.
Proof.
  revert p; induction u as [|d u IH]; intros p Hl; [done|].
  destruct p as [|c p]; simpl in *; [lia|].
  intros [_ Hp]%andb_prop. apply IH; [lia | done].
Qed.

Lemma HasPrefix_app_compat a r q :
  HasPrefix (a ++ r) q = true -> compat q a = true.
Proof.
  unfold compat. revert q; induction a as [|c a IH]; intros q.
  - intros _. by rewrite HasPrefix_nil.
  - destruct q as [|d q]; simpl; [done|].
    intros [Hc Hq]%andb_prop. apply Ascii.eqb_eq in Hc as ->.
    rewrite Ascii.eqb_refl. simpl. by apply IH.
Qed.

Lemma fresh_for_left p new k :
  fresh_for p new = true -> k < length p -> compat (drop k p) new = false.
Proof.
  intros [H _]%andb_prop Hk. rewrite forallb_forall in H.
  apply negb_true_iff, H, in_seq. lia.
Qed.

Lemma fresh_for_right p new i :
  fresh_for p new = true -> i < length new -> compat p (drop i new) = false.
Proof.
  intros [_ H]%andb_prop Hi. rewrite forallb_forall in H.
  apply negb_true_iff, H, in_seq. lia.
Qed.

Lemma apart_at old p k :
  apart old p = true -> k < length p -> compat old (drop k p) = false.
Proof.
  intros H Hk. unfold apart in H. rewrite forallb_forall in H.
  apply negb_true_iff, H, in_seq. lia.
Qed.

Lemma Contains_nil p : Contains [] p = HasPrefix [] p.
Proof. unfold Contains. rewrite Index_nil. by destruct (HasPrefix [] p). Qed.

Lemma Contains_cons c s p :
  Contains (c :: s) p = HasPrefix (c :: s) p || Contains s p.
Proof.
  unfold Contains. rewrite Index_cons.
  destruct (HasPrefix (c :: s) p); [done|]. by destruct (Index s p).
Qed.

Lemma Contains_drop s p i :
  Contains s p = false -> HasPrefix (drop i s) p = false.
Proof.
  revert i; induction s as [|c s IH]; intros i.
  - rewrite Contains_nil. by destruct i.
  - rewrite Contains_cons. intros [H1 H2]%orb_false_elim.
    destruct i; [done|]. simpl. by apply IH.
Qed.

Lemma Contains_false_drop s p :
  (forall i, HasPrefix (drop i s) p = false) -> Contains s p = false.
Proof.
  induction s as [|c s IH]; intros H.
  - rewrite Contains_nil. apply (H 0).
  - rewrite Contains_cons. rewrite (H 0 : HasPrefix (c :: s) p = false). simpl.
    apply IH. intros i. apply (H (S i)).
Qed.

(** An instance of [p] in [a ++ t] is in [t] or starts inside [a]. *)
Lemma Contains_app_false a t p :
  (forall i, i < length a -> HasPrefix (drop i a ++ t) p = false) ->
  Contains t p = false -> Contains (a ++ t) p = false.
Proof.
  induction a as [|c a IH]; intros Ha Ht; [done|].
  change ((c :: a) ++ t) with (c :: (a ++ t)). rewrite Contains_cons.
  rewrite (Ha 0 ltac:(simpl; lia) : HasPrefix (c :: a ++ t) p = false). simpl.
  apply IH; [|done]. intros i Hi. apply (Ha (S i)). simpl; lia.
Qed.

Section replace_all.
Context (old new : text).
Hypothesis old_nonempty : old <> [].

Lemma count_loop_fuel f1 f2 s :
  length s <= f1 -> length s <= f2 ->
  count_loop f1 s old = count_loop f2 s old.
Proof using old_nonempty.
  revert f2 s; induction f1 as [|f1 IH]; intros f2 s H1 H2.
  - destruct s; simpl in H1; [|lia].
    destruct f2; simpl; [done|].
    destruct old; [done|]. done.
  - destruct f2 as [|f2].
    + destruct s; simpl in H2; [|lia]. simpl. destruct old; done.
    + simpl. destruct (Index s old) as [i|] eqn:Hi; [|done].
      apply Index_Some_bound in Hi.
      assert (0 < length old) by (destruct old; simpl; [done|lia]).
      f_equal. apply IH; rewrite length_drop; lia.
Qed.

Lemma Count_unfold s :
  Count s old =
    match Index s old with
    | None => 0
    | Some i => S (Count (drop (i + length old) s) old)
    end.
Proof using old_nonempty.
  unfold Count. destruct s as [|c s].
  - simpl. destruct old; done.
  - cbn [length count_loop]. destruct (Index (c :: s) old) as [i|] eqn:Hi; [|done].
    apply Index_Some_bound in Hi. cbn [length] in Hi.
    assert (0 < length old) by (destruct old; simpl; [done|lia]).
    f_equal. apply count_loop_fuel; rewrite length_drop; cbn [length]; lia.
Qed.

(** [Replace] with [n = -1], by its loop: the text up to the first
    instance of [old], then [new], then the rest rewritten. *)
Lemma Replace_Index s :
  Replace s old new (-1) =
    match Index s old with
    | None => s
    | Some j => take j s ++ new ++ Replace (drop (j + length old) s) old new (-1)
    end.
Proof using old_nonempty.
  assert (Hloop : forall t, old <> new ->
             Replace t old new (-1) = replace_loop (Count t old) t old new).
  { intros t Hne. unfold Replace. destruct old as [|o old']; [done|].
    rewrite bool_decide_eq_false_2 by done. simpl.
    destruct (Count t (o :: old')) eqn:Hc; done. }
  destruct (decide (old = new)) as [Heq|Hne].
  - assert (Hid : forall t, Replace t old new (-1) = t).
    { intros t. unfold Replace. destruct old; [done|].
      by rewrite bool_decide_eq_true_2. }
    rewrite !Hid. destruct (Index s old) as [j|] eqn:Hj; [|done].
    rewrite Hid, <- Heq.
    pose proof (Index_Some_HasPrefix _ _ _ Hj) as Hp.
    apply HasPrefix_split in Hp. rewrite drop_drop in Hp.
    by rewrite <- Hp, take_drop.
  - rewrite Hloop by done. rewrite Count_unfold.
    destruct (Index s old) as [j|] eqn:Hj; simpl; rewrite ?Hj; [|done].
    by rewrite Hloop.
Qed.

Lemma Replace_nil : Replace [] old new (-1) = [].
Proof using old_nonempty.
  rewrite Replace_Index. simpl. destruct old; done.
Qed.

(** The same function read byte by byte: at an instance of [old] emit
    [new] and skip the instance, otherwise copy one byte. *)
Lemma Replace_cons c s :
  Replace (c :: s) old new (-1) =
    if HasPrefix (c :: s) old
    then new ++ Replace (drop (length old) (c :: s)) old new (-1)
    else c :: Replace s old new (-1).
Proof using old_nonempty.
  rewrite Replace_Index, Index_cons.
  destruct (HasPrefix (c :: s) old) eqn:Hp; [done|].
  rewrite (Replace_Index s).
  destruct (Index s old) as [j|]; simpl; done.
Qed.

Lemma Replace_absent s : Contains s old = false -> Replace s old new (-1) = s.
Proof using old_nonempty.
  unfold Contains. rewrite Replace_Index. by destruct (Index s old).
Qed.

(** An instance of [p] that is found at the head of [u ++ Replace s] was
    there in [u ++ s]: the replacement creates none when [p] is fresh
    for [new]. *)
Lemma HasPrefix_Replace_head p u s :
  fresh_for p new = true ->
  HasPrefix (u ++ Replace s old new (-1)) p = true ->
  HasPrefix (u ++ s) p = true.
Proof using old_nonempty.
  intros Hf. remember (length s) as n eqn:Hn.
  revert s u Hn. induction n as [n IH] using lt_wf_ind. intros s u Hn.
  destruct s as [|c s]; [by rewrite Replace_nil|].
  rewrite Replace_cons. destruct (HasPrefix (c :: s) old) eqn:Ho.
  - destruct (le_lt_dec (length p) (length u)) as [Hl|Hl].
    + by rewrite (HasPrefix_app_long u _ (c :: s)).
    + intros H%HasPrefix_app_short; [|done].
      apply HasPrefix_app_compat in H.
      by rewrite fresh_for_left in H.
  - rewrite (cons_middle c u (Replace _ _ _ _)), (cons_middle c u s), !app_assoc.
    apply (IH (length s)); [simpl in Hn; lia | done].
Qed.

(** The replacement leaves an instance of [p] at the head of the text
    alone when no instance of [old] starts inside it. *)
Lemma Replace_skip_instance p r :
  apart old p = true ->
  Replace (p ++ r) old new (-1) = p ++ Replace r old new (-1).
Proof using old_nonempty.
  intros Ha.
  assert (H : forall k, k <= length p ->
             Replace (drop (length p - k) p ++ r) old new (-1)
             = drop (length p - k) p ++ Replace r old new (-1)).
  { induction k as [|k IH]; intros Hk.
    - by rewrite Nat.sub_0_r, drop_all.
    - destruct (drop (length p - S k) p) as [|c q] eqn:Hq.
      { apply (f_equal length) in Hq. rewrite length_drop in Hq. simpl in Hq. lia. }
      assert (Hq' : q = drop (length p - k) p).
      { replace (length p - k) with ((length p - S k) + 1) by lia.
        by rewrite <- drop_drop, Hq. }
      simpl. rewrite Replace_cons.
      destruct (HasPrefix (c :: q ++ r) old) eqn:Ho.
      + apply (HasPrefix_app_compat (c :: q)) in Ho.
        rewrite <- Hq, apart_at in Ho; [done|done|lia].
      + f_equal. rewrite Hq'. apply IH. lia. }
  specialize (H (length p) (le_n _)). by rewrite Nat.sub_diag in H.
Qed.

Lemma HasPrefix_Replace p s :
  fresh_for p new = true -> apart old p = true ->
  HasPrefix (Replace s old new (-1)) p = HasPrefix s p.
Proof using old_nonempty.
  intros Hf Ha. destruct (HasPrefix s p) eqn:Hp.
  - apply HasPrefix_split in Hp. rewrite Hp, Replace_skip_instance by done.
    apply HasPrefix_app.
  - destruct (HasPrefix (Replace s old new (-1)) p) eqn:Hr; [|done].
    apply (HasPrefix_Replace_head p []) in Hr; [|done]. rewrite app_nil_l in Hr. congruence.
Qed.

(** If every instance of [p] in [s] sits on an instance of [old], and
    [p] is fresh for [new], no instance of [p] is left after the
    replacement. *)
Lemma Replace_removes p s :
  fresh_for p new = true ->
  (forall i, HasPrefix (drop i s) p = true -> HasPrefix (drop i s) old = true) ->
  Contains (Replace s old new (-1)) p = false.
Proof using old_nonempty.
  intros Hf. remember (length s) as n eqn:Hn.
  revert s Hn. induction n as [n IH] using lt_wf_ind. intros s Hn Hs.
  destruct s as [|c s].
  - rewrite Replace_nil, Contains_nil.
    destruct (HasPrefix [] p) eqn:Hp; [|done].
    apply (Hs 0) in Hp. destruct old; done.
  - rewrite Replace_cons. destruct (HasPrefix (c :: s) old) eqn:Ho.
    + apply Contains_app_false.
      * intros i Hi. destruct (HasPrefix _ p) eqn:Hp; [|done].
        apply HasPrefix_app_compat in Hp. by rewrite fresh_for_right in Hp.
      * assert (Hlen : 0 < length old) by (destruct old; simpl; [done|lia]).
        apply (IH (length (drop (length old) (c :: s)))); [|done|].
        { rewrite length_drop, Hn. simpl. lia. }
        intros i. rewrite drop_drop. apply Hs.
    + rewrite Contains_cons.
      destruct (HasPrefix (c :: Replace s old new (-1)) p) eqn:Hp.
      * apply (HasPrefix_Replace_head p [c]) in Hp; [|done].
        apply (Hs 0) in Hp. rewrite drop_0 in Hp. congruence.
      * simpl. apply (IH (length s)); [simpl in Hn; lia | done |].
        intros i. apply (Hs (S i)).
Qed.

Lemma Replace_removes_old s :
  fresh_for old new = true -> Contains (Replace s old new (-1)) old = false.
Proof using old_nonempty. intros Hf. by apply Replace_removes. Qed.

Lemma Replace_keeps_absent p s :
  fresh_for p new = true -> Contains s p = false ->
  Contains (Replace s old new (-1)) p = false.
Proof using old_nonempty.
  intros Hf Hc. apply Replace_removes; [done|].
  intros i Hi. by rewrite Contains_drop in Hi.
Qed.

End replace_all.

(** ** The one-pass reading of a rule table *)

Import strings.

Lemma scan_skip rules k s : scan rules k s = scan rules 0 (drop k s).
Proof.
  revert k; induction s as [|c s IH]; intros k; [by destruct k|].
  destruct k as [|k]; [done|]. simpl. apply IH.
Qed.

Lemma scan_no_rules s : scan [] 0 s = s.
Proof. induction s as [|c s IH]; simpl; [done | by rewrite IH]. Qed.

Lemma scan_cons rules c s :
  scan rules 0 (c :: s) =
    match find_rule rules (c :: s) with
    | Some r => r.2 ++ scan rules 0 (drop (length r.1 - 1) s)
    | None => c :: scan rules 0 s
    end.
Proof.
  cbn [scan]. destruct (find_rule rules (c :: s)); [|done].
  by rewrite scan_skip.
Qed.

Lemma find_rule_Some rules s r :
  find_rule rules s = Some r -> r ∈ rules /\ HasPrefix s r.1 = true.
Proof.
  induction rules as [|r' rules IH]; simpl; [done|].
  destruct (HasPrefix s r'.1) eqn:Hp.
  - intros [= <-]. split; [left | done].
  - intros [? ?]%IH. split; [by right | done].
Qed.

Lemma find_rule_None rules s r :
  find_rule rules s = None -> r ∈ rules -> HasPrefix s r.1 = false.
Proof.
  induction rules as [|r' rules IH]; simpl; [by intros _ ?%elem_of_nil|].
  destruct (HasPrefix s r'.1) eqn:Hp; [done|].
  intros Hn [->|Hin]%elem_of_cons; [done | by apply IH].
Qed.

Lemma find_rule_ext rules s t :
  (forall r, r ∈ rules -> HasPrefix s r.1 = HasPrefix t r.1) ->
  find_rule rules s = find_rule rules t.
Proof.
  induction rules as [|r rules IH]; intros H; simpl; [done|].
  rewrite (H r) by left. destruct (HasPrefix t r.1); [done|].
  apply IH. intros r' Hr'. apply H. by right.
Qed.

Lemma find_rule_unique rules r s :
  r ∈ rules -> HasPrefix s r.1 = true ->
  (forall r', r' ∈ rules -> HasPrefix s r'.1 = true -> r' = r) ->
  find_rule rules s = Some r.
Proof.
  induction rules as [|r0 rules IH]; intros Hin Hp Hu; [by apply elem_of_nil in Hin|].
  simpl. destruct (HasPrefix s r0.1) eqn:Hp0.
  - f_equal. apply Hu; [left | done].
  - apply elem_of_cons in Hin as [->|Hin]; [congruence|].
    apply IH; [done..|]. intros r' Hr'. apply Hu. by right.
Qed.

(** A stretch of text in which no rule can match is copied. *)
Lemma scan_app_fresh rules a t :
  (forall r i, r ∈ rules -> i < length a -> compat r.1 (drop i a) = false) ->
  scan rules 0 (a ++ t) = a ++ scan rules 0 t.
Proof.
  induction a as [|c a IH]; intros H; [done|].
  change ((c :: a) ++ t) with (c :: (a ++ t)). rewrite scan_cons.
  destruct (find_rule rules (c :: a ++ t)) as [r|] eqn:Hr.
  - apply find_rule_Some in Hr as [Hin Hp].
    apply (HasPrefix_app_compat (c :: a)) in Hp.
    pose proof (H r 0 Hin ltac:(simpl; lia)) as H0.
    rewrite drop_0 in H0. congruence.
  - simpl. f_equal. apply IH. intros r i Hin Hi.
    apply (H r (S i) Hin). simpl; lia.
Qed.

Lemma independent_cons r rules :
  independent (r :: rules) = true ->
  r.1 <> [] /\
  (forall r', r' ∈ rules -> fresh_for r'.1 r.2 = true /\ apart r.1 r'.1 = true) /\
  independent rules = true.
Proof.
  simpl. intros [[H1 H2]%andb_prop H3]%andb_prop. split_and!; [|  |done].
  - by apply negb_true_iff, bool_decide_eq_false in H1.
  - intros r' Hin. rewrite forallb_forall in H2.
    apply andb_prop, H2. by apply list_elem_of_In.
Qed.

Lemma independent_nonempty rules r :
  independent rules = true -> r ∈ rules -> r.1 <> [].
Proof.
  induction rules as [|r' rules IH]; [by intros _ ?%elem_of_nil|].
  intros (Hne & _ & Hind)%independent_cons [->|Hin]%elem_of_cons; [done|].
  by apply IH.
Qed.

(** Applying one rule to the whole document and then reading the result
    with the remaining rules is reading the document with all of them. *)
Lemma scan_absorb old new rules s :
  independent ((old, new) :: rules) = true ->
  scan rules 0 (Replace s old new (-1)) = scan ((old, new) :: rules) 0 s.
Proof.
  intros (Hne & Hr & Hind)%independent_cons. simpl in Hne, Hr.
  remember (length s) as n eqn:Hn.
  revert s Hn. induction n as [n IH] using lt_wf_ind. intros s Hn.
  destruct s as [|c s]; [by rewrite Replace_nil|].
  assert (Hlen : 0 < length old) by (destruct old; simpl; [done|lia]).
  rewrite (scan_cons (_ :: _)). cbn [find_rule fst snd].
  rewrite Replace_cons by done. destruct (HasPrefix (c :: s) old) eqn:Ho; cbn [fst snd].
  - rewrite scan_app_fresh.
    + f_equal.
      replace (drop (length old - 1) s) with (drop (length old) (c :: s))
        by (destruct (length old); [lia | simpl; f_equal; lia]).
      apply (IH (length (drop (length old) (c :: s)))); [|done].
      rewrite length_drop, Hn. simpl. lia.
    + intros r i Hin Hi. destruct (Hr r Hin) as [Hf _].
      by apply fresh_for_right.
  - assert (Hfind : find_rule rules (c :: Replace s old new (-1))
                    = find_rule rules (c :: s)).
    { apply find_rule_ext. intros r Hin. destruct (Hr r Hin) as [Hf Ha].
      pose proof (HasPrefix_Replace old new Hne r.1 (c :: s) Hf Ha) as H.
      by rewrite Replace_cons, Ho in H. }
    rewrite scan_cons, Hfind.
    destruct (find_rule rules (c :: s)) as [r|] eqn:Hfr.
    + apply find_rule_Some in Hfr as [Hin Hp].
      destruct (Hr r Hin) as [Hf Ha].
      pose proof (independent_nonempty _ _ Hind Hin) as Hrne.
      assert (Hrlen : 0 < length r.1) by (destruct r.1; simpl; [done|lia]).
      f_equal.
      replace (drop (length r.1 - 1) s) with (drop (length r.1) (c :: s))
        by (destruct (length r.1); [lia | simpl; f_equal; lia]).
      replace (drop (length r.1 - 1) (Replace s old new (-1)))
        with (drop (length r.1) (c :: Replace s old new (-1)))
        by (destruct (length r.1); [lia | simpl; f_equal; lia]).
      pose proof (Replace_cons old new Hne c s) as Hc. rewrite Ho in Hc.
      rewrite <- Hc. apply HasPrefix_split in Hp.
      rewrite Hp at 1. rewrite Replace_skip_instance by done.
      rewrite drop_app_length.
      apply (IH (length (drop (length r.1) (c :: s)))); [|done].
      rewrite length_drop, Hn. simpl. lia.
    + f_equal. apply (IH (length s)); [simpl in Hn; lia | done].
Qed.

Lemma apply_rules_scan rules t :
  independent rules = true -> apply_rules rules t = scan rules 0 t.
Proof.
  revert t; induction rules as [|[old new] rules IH]; intros t Hind.
  - by rewrite scan_no_rules.
  - pose proof Hind as (_ & _ & Hind')%independent_cons.
    unfold apply_rules in *. simpl. rewrite IH by done.
    by apply scan_absorb.
Qed.

(** Reading [a ++ t] is reading [a], then reading [t], when no instance
    of a source prefix can start in [a] and end in [t]. *)
Lemma scan_app rules a t :
  (forall r i, r ∈ rules -> i < length a ->
     HasPrefix (drop i a ++ t) r.1 = true -> HasPrefix (drop i a) r.1 = true) ->
  scan rules 0 (a ++ t) = scan rules 0 a ++ scan rules 0 t.
Proof.
  remember (length a) as n eqn:Hn.
  revert a Hn. induction n as [n IH] using lt_wf_ind. intros a Hn H.
  destruct a as [|c a]; [done|]. rewrite Hn in H.
  change ((c :: a) ++ t) with (c :: (a ++ t)). rewrite !scan_cons.
  assert (Hfind : find_rule rules (c :: a ++ t) = find_rule rules (c :: a)).
  { apply find_rule_ext. intros r Hin.
    destruct (HasPrefix (c :: a) r.1) eqn:Hp.
    - apply HasPrefix_true in Hp as [q Hq]. apply HasPrefix_true.
      exists (q ++ t). change (c :: a ++ t) with ((c :: a) ++ t).
      by rewrite Hq, <- app_assoc.
    - destruct (HasPrefix (c :: a ++ t) r.1) eqn:Hq; [|done].
      apply (H r 0 Hin ltac:(simpl; lia)) in Hq. rewrite drop_0 in Hq. congruence. }
  rewrite Hfind. destruct (find_rule rules (c :: a)) as [r|] eqn:Hr.
  - apply find_rule_Some in Hr as [Hin Hp].
    apply HasPrefix_length in Hp. simpl in Hp.
    rewrite drop_app_le by lia. rewrite <- app_assoc. f_equal.
    apply (IH (length (drop (length r.1 - 1) a))); [|done|].
    + rewrite length_drop, Hn. simpl. lia.
    + intros r' i Hin' Hi. rewrite drop_drop.
      rewrite length_drop in Hi.
      apply (H r' (S (length r.1 - 1 + i)) Hin'). simpl. lia.
  - simpl. f_equal. apply (IH (length a)); [simpl in Hn; lia | done |].
    intros r' i Hin' Hi. apply (H r' (S i) Hin'). simpl; lia.
Qed.

Lemma separate_at rules r r' :
  separate rules = true -> r ∈ rules -> r' ∈ rules ->
  r.1 <> [] /\
  (compat r.1 r'.1 = true -> r = r') /\
  (forall k, 0 < k < length r.1 -> compat (drop k r.1) r'.1 = false).
Proof.
  unfold separate. rewrite forallb_forall.
  intros H Hin Hin'. apply list_elem_of_In, H in Hin.
  apply andb_prop in Hin as [Hne Hall]. rewrite forallb_forall in Hall.
  apply list_elem_of_In, Hall in Hin'. apply andb_prop in Hin' as [H1 H2].
  split_and!.
  - by apply negb_true_iff, bool_decide_eq_false in Hne.
  - intros Hc. apply orb_prop in H1 as [H1|H1]; [by apply bool_decide_eq_true in H1|].
    by rewrite Hc in H1.
  - intros k Hk. rewrite forallb_forall in H2.
    apply negb_true_iff, H2, in_seq. lia.
Qed.

(** The reading does not depend on the context of an instance: whatever
    precedes and follows it, the instance is replaced, and the two sides
    are read on their own. *)
Lemma scan_instance rules old new a b :
  separate rules = true -> (old, new) ∈ rules ->
  scan rules 0 (a ++ old ++ b) = scan rules 0 a ++ new ++ scan rules 0 b.
Proof.
  intros Hsep Hin. rewrite scan_app.
  - f_equal.
    destruct (separate_at _ _ _ Hsep Hin Hin) as (Hne & _ & _). simpl in Hne.
    destruct old as [|o old'] eqn:Hold; [done|]. rewrite <- Hold in *.
    assert (Hfind : find_rule rules (old ++ b) = Some (old, new)).
    { apply find_rule_unique; [done | apply HasPrefix_app |].
      intros r' Hr' Hp. apply HasPrefix_app_compat in Hp.
      destruct (separate_at _ _ _ Hsep Hr' Hin) as (_ & Heq & _). by apply Heq. }
    rewrite Hold at 1. change ((o :: old') ++ b) with (o :: (old' ++ b)).
    rewrite scan_cons. change (o :: (old' ++ b)) with ((o :: old') ++ b).
    rewrite <- Hold, Hfind. cbn [fst snd]. f_equal.
    rewrite Hold. simpl. rewrite Nat.sub_0_r. by rewrite drop_app_length.
  - intros r i Hr Hi Hp.
    destruct (le_lt_dec (length r.1) (length (drop i a))) as [Hl|Hl].
    + by rewrite (HasPrefix_app_long _ _ []), app_nil_r in Hp.
    + apply HasPrefix_app_short in Hp; [|done].
      apply HasPrefix_app_compat in Hp.
      destruct (separate_at _ _ _ Hsep Hr Hin) as (_ & _ & Hk).
      rewrite Hk in Hp; [done|]. rewrite length_drop in *. lia.
Qed.


(** ** The rewriter of [processSchemaFile] *)

Ltac in_rule_table :=
  unfold rule_table;
  repeat first [ apply list_elem_of_here | apply list_elem_of_further ].

Import strings.

Lemma processSchemaFile_content_rules t :
  processSchemaFile_content t = apply_rules rule_table t.
Proof.
  cbv [processSchemaFile_content apply_rules rule_table fold_left fst snd].
  reflexivity.
Qed.

Lemma rule_table_independent : independent rule_table = true.
Proof. vm_compute. reflexivity. Qed.

Lemma rule_table_separate : separate rule_table = true.
Proof. vm_compute. reflexivity. Qed.

Lemma processSchemaFile_content_scan t :
  processSchemaFile_content t = scan rule_table 0 t.
Proof.
  rewrite processSchemaFile_content_rules.
  apply apply_rules_scan, rule_table_independent.
Qed.

(** A text in which none of the six source prefixes occurs is a fixed
    point of the rewriter. *)
Lemma processSchemaFile_content_fixed t :
  (forall r, r ∈ rule_table -> Contains t r.1 = false) ->
  processSchemaFile_content t = t.
Proof.
  intros H. unfold processSchemaFile_content.
  repeat match goal with
         | |- context [Replace t ?o ?n (-1)] =>
             rewrite (Replace_absent o n ltac:(done) t)
               by (apply (H (o, n)); in_rule_table)
         end.
  done.
Qed.

(** When only the function and view rules can fire, the rewriter is the
    function rule followed by the view rule. *)
Lemma processSchemaFile_content_function_view t :
  Contains t (str "CREATE SCHEMA ") = false ->
  Contains t (str "CREATE TABLE ") = false ->
  Contains t (str "CREATE INDEX ") = false ->
  Contains t (str "CREATE SEQUENCE ") = false ->
  processSchemaFile_content t =
    Replace (Replace t (str "CREATE FUNCTION ") (str "CREATE OR REPLACE FUNCTION ") (-1))
            (str "CREATE VIEW ") (str "CREATE OR REPLACE VIEW ") (-1).
Proof.
  intros HS HT HI HQ. unfold processSchemaFile_content.
  rewrite (Replace_absent (str "CREATE SCHEMA ")) by done.
  set (t1 := Replace t (str "CREATE FUNCTION ") _ _).
  assert (H1 : forall p, fresh_for p (str "CREATE OR REPLACE FUNCTION ") = true ->
                 Contains t p = false -> Contains t1 p = false).
  { intros p Hf Hc. by apply Replace_keeps_absent. }
  rewrite (Replace_absent (str "CREATE TABLE ")) by (done || by apply H1).
  rewrite (Replace_absent (str "CREATE INDEX ")) by (done || by apply H1).
  rewrite (Replace_absent (str "CREATE SEQUENCE ")) by (done || by apply H1).
  done.
Qed.


(** ** The claims about the rewriter *)

Import strings.

(** C1, as the code has it.  For every text [t] in which none of the
    prefixes [CREATE SCHEMA ], [CREATE TABLE ], [CREATE INDEX ] and
    [CREATE SEQUENCE ] occurs, rewriting the rewritten text changes
    nothing: the function and view rules converge after one rewrite,
    because [CREATE OR REPLACE X ] contains no instance of [CREATE X ].
    If moreover neither [CREATE FUNCTION ] nor [CREATE VIEW ] occurs in
    [t] (the empty text, say), [t] passes through unchanged. *)
Theorem rewrite_idempotent_for_or_replace_rules (t : text) :
  Contains t (str "CREATE SCHEMA ") = false ->
  Contains t (str "CREATE TABLE ") = false ->
  Contains t (str "CREATE INDEX ") = false ->
  Contains t (str "CREATE SEQUENCE ") = false ->
  processSchemaFile_content (processSchemaFile_content t) = processSchemaFile_content t
  /\ (Contains t (str "CREATE FUNCTION ") = false ->
      Contains t (str "CREATE VIEW ") = false ->
      processSchemaFile_content t = t).
Proof.
  intros HS HT HI HQ. split.
  - apply processSchemaFile_content_fixed. intros r Hr.
    rewrite processSchemaFile_content_function_view by done.
    unfold rule_table in Hr.
    repeat (apply elem_of_cons in Hr as [->|Hr]); [..|by apply elem_of_nil in Hr];
      cbn [fst];
      first
        [ (* the view prefix is removed by the view rule itself *)
          by apply Replace_removes_old
        | (* the function prefix is removed by the function rule and not
             created by the view rule *)
          apply Replace_keeps_absent; [done | by vm_compute |];
          by apply Replace_removes_old
        | (* a prefix that is absent from [t] is created by neither rule *)
          apply Replace_keeps_absent; [done | by vm_compute |];
          apply Replace_keeps_absent; [done | by vm_compute | done] ].
  - intros HF HV. apply processSchemaFile_content_fixed. intros r Hr.
    unfold rule_table in Hr.
    repeat (apply elem_of_cons in Hr as [->|Hr]); [..|by apply elem_of_nil in Hr];
      done.
Qed.

Lemma rewrite_idempotent_for_or_replace_rules_witness :
  let t := str "CREATE FUNCTION f() RETURNS int AS 'SELECT 1' LANGUAGE sql; CREATE VIEW v AS SELECT f();" in
  Contains t (str "CREATE SCHEMA ") = false /\
  processSchemaFile_content (processSchemaFile_content t) = processSchemaFile_content t.
Proof.
  intros t. split; [by vm_compute|].
  refine (proj1 (rewrite_idempotent_for_or_replace_rules t _ _ _ _));
    vm_compute; reflexivity.
Defined.

(** C1, as the specification has it, fails: a rewritten [CREATE TABLE]
    statement still starts with the bare prefix [CREATE TABLE ], it is
    matched again and receives a second [IF NOT EXISTS]; and a text that
    is already in rewritten form does not pass through unchanged. *)
Lemma rewrite_twice_differs :
  processSchemaFile_content (processSchemaFile_content (str "CREATE TABLE t (id int);"))
    = str "CREATE TABLE IF NOT EXISTS IF NOT EXISTS t (id int);"
  /\ processSchemaFile_content (processSchemaFile_content (str "CREATE TABLE t (id int);"))
    <> processSchemaFile_content (str "CREATE TABLE t (id int);")
  /\ processSchemaFile_content (str "CREATE SCHEMA IF NOT EXISTS app;")
    <> str "CREATE SCHEMA IF NOT EXISTS app;".
Proof. split_and!; by vm_compute. Qed.

(** C2.  The rewriter is the six rules of the table applied one after the
    other, each to the whole document; this is the same as one pass over
    the document that replaces every instance of a source prefix by its
    rewritten prefix and copies every other byte; an instance is replaced
    whatever precedes and follows it (inside a string literal or a comment
    as well), the two sides being rewritten on their own; and a document
    with no instance of a source prefix is left as it is. *)
Theorem processSchemaFile_six_literal_replacements (t : text) :
  processSchemaFile_content t = apply_rules rule_table t
  /\ processSchemaFile_content t = rewrite_in_one_pass t
  /\ (forall a b old new, (old, new) ∈ rule_table ->
        processSchemaFile_content (a ++ old ++ b)
        = processSchemaFile_content a ++ new ++ processSchemaFile_content b)
  /\ ((forall r, r ∈ rule_table -> Contains t r.1 = false) ->
        processSchemaFile_content t = t).
Proof.
  split_and!.
  - apply processSchemaFile_content_rules.
  - apply processSchemaFile_content_scan.
  - intros a b old new Hin. rewrite !processSchemaFile_content_scan.
    by apply scan_instance; [apply rule_table_separate|].
  - apply processSchemaFile_content_fixed.
Qed.

Lemma processSchemaFile_six_literal_replacements_witness :
  processSchemaFile_content (str "-- old: " ++ str "CREATE VIEW " ++ str "v AS SELECT 'x';")
  = str "-- old: CREATE OR REPLACE VIEW v AS SELECT 'x';".
Proof.
  destruct (processSchemaFile_six_literal_replacements []) as (_ & _ & H & _).
  rewrite (H _ _ _ (str "CREATE OR REPLACE VIEW ")).
  - vm_compute. reflexivity.
  - in_rule_table.
Defined.

(** C6.  The two literal scenarios of the specification. *)
Theorem rewrite_literal_scenarios :
  processSchemaFile_content (str "CREATE TABLE public.customers (id SERIAL PRIMARY KEY);")
    = str "CREATE TABLE IF NOT EXISTS public.customers (id SERIAL PRIMARY KEY);"
  /\ processSchemaFile_content (str "CREATE VIEW order_summary AS SELECT 1;")
    = str "CREATE OR REPLACE VIEW order_summary AS SELECT 1;".
Proof. split; vm_compute; reflexivity. Qed.


(** ** The claims about connection descriptors *)

Import fmt config.

(** C7.  [ConnectionString] is the key-value form, with the SSL mode of
    the descriptor or [require] when that field is empty, and
    [PgDumpConnectionString] is the URI form. *)
Theorem connection_string_formats (c : DBConfig) :
  ConnectionString c =
    str "host=" ++ Host c ++ str " port=" ++ itoa (Port c)
    ++ str " user=" ++ User c ++ str " password=" ++ Password c
    ++ str " dbname=" ++ Database c
    ++ str " sslmode=" ++ (if bool_decide (SSLMode c = []) then str "require" else SSLMode c)
  /\ PgDumpConnectionString c =
    str "postgresql://" ++ User c ++ str ":" ++ Password c
    ++ str "@" ++ Host c ++ str ":" ++ itoa (Port c) ++ str "/" ++ Database c.
Proof.
  split.
  - unfold ConnectionString. cbn -[itoa]. by rewrite app_nil_r.
  - unfold PgDumpConnectionString. cbn -[itoa]. by rewrite app_nil_r.
Qed.


(** ** Running the schema handler *)

Section logic.
Import os.
Context {A B : Type}.

Lemma wp_ret (a : A) Q w : Q a w -> wp (mret a) Q w.
Proof. done. Qed.

Lemma wp_bind (m : M A) (f : A -> M B) Q w :
  wp m (fun a w' => wp (f a) Q w') w -> wp (m ≫= f) Q w.
Proof.
  unfold wp, mbind, M_bind. by destruct (m w).
Qed.

Lemma wp_consequence (m : M A) (Q Q' : A -> World -> Prop) w :
  (forall a w', Q a w' -> Q' a w') -> wp m Q w -> wp m Q' w.
Proof. unfold wp. auto. Qed.

End logic.

Import os.

Lemma wp_emit e (Q : unit -> World -> Prop) w :
  Q tt {| files := files w; trace := trace w ++ [e] |} -> wp (emit e) Q w.
Proof. done. Qed.

Lemma wp_modify f (Q : unit -> World -> Prop) w :
  Q tt {| files := f (files w); trace := trace w |} -> wp (modify f) Q w.
Proof. done. Qed.

Lemma wp_lookup_file name (Q : option Node -> World -> Prop) w :
  Q (files w !! name) w -> wp (lookup_file name) Q w.
Proof. done. Qed.

Lemma wp_Run O c (Q : error * text -> World -> Prop) w :
  match output_file c, written (child O c (files w)) with
  | Some name, Some bytes =>
      Q (exit_error (child O c (files w)), stderr (child O c (files w)))
        {| files := <[name := File bytes]> (files w);
           trace := trace w ++ [EvRun c (files w); EvCreate name] |}
  | _, _ =>
      Q (exit_error (child O c (files w)), stderr (child O c (files w)))
        {| files := files w; trace := trace w ++ [EvRun c (files w)] |}
  end ->
  wp (Run O c) Q w.
Proof.
  unfold wp, Run. cbn [files trace fst snd].
  destruct (output_file c); [|done].
  destruct (written _); [|done]. by rewrite <- app_assoc.
Qed.


Import fmt config os schema observe.

Lemma output_file_dump O s path :
  output_file (dumpSchema_cmd O s path) = Some path.
Proof. reflexivity. Qed.

Lemma output_file_reset O s name : output_file (dropExistingObjects_cmd O s name) = None.
Proof. reflexivity. Qed.

Lemma output_file_restore O s name : output_file (restoreSchema_cmd O s name) = None.
Proof. reflexivity. Qed.

Lemma output_file_reader O s content :
  output_file (RestoreSchemaFromReader_cmd O s content) = None.
Proof. reflexivity. Qed.

Lemma HasSuffix_app s suffix : HasSuffix (s ++ suffix) suffix = true.
Proof. unfold HasSuffix. rewrite rev_app_distr. apply HasPrefix_app. Qed.

Lemma sql_not_modified s : HasSuffix (s ++ str ".sql") (str ".modified") = false.
Proof. unfold HasSuffix. rewrite rev_app_distr. reflexivity. Qed.

Lemma temp_name_script O :
  temp_name O (str "drop-objects-*.sql") =
    (TempDir O ++ str "/" ++ str "drop-objects-" ++ random O (str "drop-objects-*.sql"))
    ++ str ".sql".
Proof. unfold temp_name, Join. cbn. by rewrite <- !app_assoc. Qed.

Lemma dump_error_text e d :
  Sprintf (str "failed to dump schema: %v")
    [Str (Sprintf (str "pg_dump failed: %v, stderr: %s") [Str e; Str d])]
  = step_error Dumper e d.
Proof. cbn. by rewrite !app_nil_r. Qed.

Lemma reset_error_text e d :
  Sprintf (str "failed to drop existing objects: %v")
    [Str (Sprintf (str "dropping objects failed: %v, stderr: %s") [Str e; Str d])]
  = step_error Resetter e d.
Proof. cbn. by rewrite !app_nil_r. Qed.

Lemma restore_error_text e d :
  Sprintf (str "failed to restore schema: %v")
    [Str (Sprintf (str "psql restore failed: %v, stderr: %s") [Str e; Str d])]
  = step_error Restorer e d.
Proof. cbn. by rewrite !app_nil_r. Qed.

Lemma none_some_False {A} (x : option A) a : x = None -> x = Some a -> False.
Proof. congruence. Qed.

Lemma some_some_eq {A} (x : option A) a b : x = Some a -> x = Some b -> a = b.
Proof. congruence. Qed.

Lemma inside_Join dir name : inside dir (Join dir name) = true.
Proof. unfold inside, Join. rewrite app_assoc. apply HasPrefix_app. Qed.

Lemma inside_Join_app dir name suffix : inside dir (Join dir name ++ suffix) = true.
Proof.
  unfold inside, Join. rewrite (app_assoc dir), <- (app_assoc (dir ++ _)).
  apply HasPrefix_app.
Qed.

Lemma RemoveAll_self (m : gmap text Node) dir :
  filter (fun kv => kv.1 <> dir /\ inside dir kv.1 = false) m !! dir = None.
Proof. apply map_lookup_filter_None. right. by intros x _ [? _]. Qed.

Lemma RemoveAll_inside (m : gmap text Node) dir name :
  inside dir name = true ->
  filter (fun kv => kv.1 <> dir /\ inside dir kv.1 = false) m !! name = None.
Proof.
  intros Hin. apply map_lookup_filter_None. right. intros x _ [_ H].
  cbn [fst] in H. congruence.
Qed.

Lemma RemoveAll_absent (m : gmap text Node) dir name :
  m !! name = None ->
  filter (fun kv => kv.1 <> dir /\ inside dir kv.1 = false) m !! name = None.
Proof. intros H. apply map_lookup_filter_None. by left. Qed.

Lemma absent_after_recreate (m : gmap text Node) k k' v :
  m !! k = None -> delete k' (<[k' := v]> m) !! k = None.
Proof.
  intros H. destruct (decide (k' = k)) as [->|Hne]; [apply lookup_delete_eq|].
  by rewrite lookup_delete_ne, lookup_insert_ne.
Qed.

Lemma absent_after_rewrite (m : gmap text Node) k k' v v' :
  m !! k = None -> delete k' (<[k' := v]> (<[k' := v']> m)) !! k = None.
Proof.
  intros H. destruct (decide (k' = k)) as [->|Hne]; [apply lookup_delete_eq|].
  by rewrite lookup_delete_ne, !lookup_insert_ne.
Qed.

Lemma step_of_dump O s path fs :
  step_of (EvRun (dumpSchema_cmd O s path) fs) = Some Dumper.
Proof. reflexivity. Qed.

Lemma step_of_reset O s name fs :
  step_of (EvRun (dropExistingObjects_cmd O s name) fs) = Some Resetter.
Proof. reflexivity. Qed.

Lemma step_of_restore O s name fs :
  step_of (EvRun (restoreSchema_cmd O s name) fs) = Some Restorer.
Proof. reflexivity. Qed.

Lemma step_of_rewrite name bytes :
  step_of (EvWrite (name ++ str ".modified") bytes) = Some Rewriter.
Proof. unfold step_of. by rewrite HasSuffix_app. Qed.

Lemma step_of_script O bytes :
  step_of (EvWrite (temp_name O (str "drop-objects-*.sql")) bytes) = None.
Proof. unfold step_of. by rewrite temp_name_script, sql_not_modified. Qed.


(** One step of the program logic: the next call of the program, or the
    case analysis it waits for. *)
Ltac wp_step :=
  lazymatch goal with
  | |- wp (mbind _ _) _ _ => simple apply @wp_bind
  | |- wp (mret _) _ _ => simple apply @wp_ret
  | |- wp (os.emit _) _ _ => simple apply wp_emit
  | |- wp (os.modify _) _ _ => simple apply wp_modify
  | |- wp (os.lookup_file _) _ _ => simple apply wp_lookup_file
  | |- wp (os.Run _ (schema.dumpSchema_cmd _ _ _)) _ _ =>
      simple apply wp_Run; rewrite output_file_dump
  | |- wp (os.Run _ (schema.dropExistingObjects_cmd _ _ _)) _ _ =>
      simple apply wp_Run; rewrite output_file_reset
  | |- wp (os.Run _ (schema.restoreSchema_cmd _ _ _)) _ _ =>
      simple apply wp_Run; rewrite output_file_restore
  | |- wp (os.Run _ (schema.RestoreSchemaFromReader_cmd _ _ _)) _ _ =>
      simple apply wp_Run; rewrite output_file_reader
  | |- wp (os.defer _ _) _ _ => unfold os.defer
  | |- wp (os.MkdirTemp _ _) _ _ => unfold os.MkdirTemp
  | |- wp (os.CreateTemp _ _) _ _ => unfold os.CreateTemp
  | |- wp (os.Open _ _) _ _ => unfold os.Open
  | |- wp (os.Create _ _) _ _ => unfold os.Create
  | |- wp (os.Write _ _ _) _ _ => unfold os.Write
  | |- wp (os.ReadAll _ _) _ _ => unfold os.ReadAll
  | |- wp (os.Remove _) _ _ => unfold os.Remove
  | |- wp (os.RemoveAll _) _ _ => unfold os.RemoveAll
  | |- wp (os.Printf _ _) _ _ => unfold os.Printf
  | |- wp (schema.dumpSchema _ _ _) _ _ => unfold schema.dumpSchema
  | |- wp (schema.dropExistingObjects _ _) _ _ => unfold schema.dropExistingObjects
  | |- wp (schema.processSchemaFile _ _ _) _ _ => unfold schema.processSchemaFile
  | |- wp (schema.restoreSchema _ _ _) _ _ => unfold schema.restoreSchema
  | |- wp (schema.DumpAndRestoreSchema _ _) _ _ => unfold schema.DumpAndRestoreSchema
  | |- wp (schema.RestoreSchemaFromFile _ _ _) _ _ => unfold schema.RestoreSchemaFromFile
  | |- wp (schema.RestoreSchemaFromReader _ _ _) _ _ => unfold schema.RestoreSchemaFromReader
  | |- wp (match ?x with _ => _ end) _ _ =>
      lazymatch x with
      | os.exit_error _ => destruct x eqn:?
      | _ => destruct x
      end
  | |- match os.written ?x with _ => _ end => destruct (os.written x)
  end;
  lazy beta iota zeta delta [fst snd os.files os.trace fmt.Errorf schema.start];
  try lazymatch goal with
      | |- context [<[?k:=?v]> ?m !! ?k] =>
          rewrite (lookup_insert_eq m k v);
          lazy beta iota;
          try lazymatch goal with
              | |- context [[] ++ ?x] => rewrite (app_nil_l x)
              end
      end.

Ltac wp_run := repeat wp_step; cbn [app].

(** One step of the program logic that keeps what a case analysis found. *)
Ltac wp_case :=
  lazymatch goal with
  | |- wp (match ?x with _ => _ end) _ _ => destruct x eqn:?
  end;
  lazy beta iota zeta delta [fst snd os.files os.trace fmt.Errorf schema.start].

(** The same for what [pg_dump] wrote. *)
Ltac wp_written :=
  lazymatch goal with
  | |- match os.written ?x with _ => _ end => destruct (os.written x) eqn:?
  end;
  lazy beta iota zeta delta [fst snd os.files os.trace fmt.Errorf schema.start].

Ltac wp_walk := repeat first [wp_case | wp_written | wp_step]; cbn [app].

Import os observe.

Lemma steps_nil : steps [] = [].
Proof. done. Qed.

Lemma steps_cons_none e tr l :
  step_of e = None -> steps tr = l -> steps (e :: tr) = l.
Proof. unfold steps. cbn [omap list_omap]. by intros -> ->. Qed.

Lemma steps_cons_some e st tr l :
  step_of e = Some st -> steps tr = l -> steps (e :: tr) = st :: l.
Proof. unfold steps. cbn [omap list_omap]. by intros -> ->. Qed.


Import os observe.

Lemma runs_nil : runs [] = [].
Proof. done. Qed.

Lemma runs_cons_run c fs tr l :
  runs tr = l -> runs (EvRun c fs :: tr) = (c, fs) :: l.
Proof. unfold runs. cbn [omap list_omap]. by intros ->. Qed.

Lemma runs_cons_other e tr l :
  match e with EvRun _ _ => False | _ => True end ->
  runs tr = l -> runs (e :: tr) = l.
Proof. unfold runs. cbn [omap list_omap]. destruct e; by intros ? ->. Qed.

Lemma created_nil : created [] = [].
Proof. done. Qed.

Lemma created_cons_mkdir name tr l :
  created tr = l -> created (EvMkdir name :: tr) = name :: l.
Proof. unfold created. cbn [omap list_omap]. by intros ->. Qed.

Lemma created_cons_create name tr l :
  created tr = l -> created (EvCreate name :: tr) = name :: l.
Proof. unfold created. cbn [omap list_omap]. by intros ->. Qed.

Lemma created_cons_other e tr l :
  match e with EvMkdir _ | EvCreate _ => False | _ => True end ->
  created tr = l -> created (e :: tr) = l.
Proof. unfold created. cbn [omap list_omap]. destruct e; by intros ? ->. Qed.


Ltac runs_eq :=
  lazymatch goal with
  | |- observe.runs [] = _ => exact runs_nil
  | |- observe.runs (os.EvRun ?c ?fs :: ?tr) = _ =>
      simple eapply (runs_cons_run c fs tr); runs_eq
  | |- observe.runs (?e :: ?tr) = _ =>
      simple eapply (runs_cons_other e tr _ I); runs_eq
  end.

Ltac runs_simpl :=
  lazymatch goal with
  | |- context [observe.runs ?tr] =>
      let x := fresh "x" in
      let H := fresh "H" in
      set (x := observe.runs tr);
      eassert (H : x = _) by (subst x; runs_eq);
      clearbody x; subst x
  end.

Ltac created_eq :=
  lazymatch goal with
  | |- observe.created [] = _ => exact created_nil
  | |- observe.created (os.EvMkdir ?n :: ?tr) = _ =>
      simple eapply (created_cons_mkdir n tr); created_eq
  | |- observe.created (os.EvCreate ?n :: ?tr) = _ =>
      simple eapply (created_cons_create n tr); created_eq
  | |- observe.created (?e :: ?tr) = _ =>
      simple eapply (created_cons_other e tr _ I); created_eq
  end.

Ltac created_simpl :=
  lazymatch goal with
  | |- context [observe.created ?tr] =>
      let x := fresh "x" in
      let H := fresh "H" in
      set (x := observe.created tr);
      eassert (H : x = _) by (subst x; created_eq);
      clearbody x; subst x
  end.

(** The steps of an explicit trace, event by event. *)
Ltac steps_eq :=
  lazymatch goal with
  | |- observe.steps [] = _ => exact steps_nil
  | |- observe.steps (os.EvRun (schema.dumpSchema_cmd ?O ?s ?p) ?fs :: ?tr) = _ =>
      simple eapply (steps_cons_some _ _ tr _ (step_of_dump O s p fs)); steps_eq
  | |- observe.steps (os.EvRun (schema.dropExistingObjects_cmd ?O ?s ?p) ?fs :: ?tr) = _ =>
      simple eapply (steps_cons_some _ _ tr _ (step_of_reset O s p fs)); steps_eq
  | |- observe.steps (os.EvRun (schema.restoreSchema_cmd ?O ?s ?p) ?fs :: ?tr) = _ =>
      simple eapply (steps_cons_some _ _ tr _ (step_of_restore O s p fs)); steps_eq
  | |- observe.steps (os.EvWrite (?n ++ str ".modified") ?b :: ?tr) = _ =>
      simple eapply (steps_cons_some _ _ tr _ (step_of_rewrite n b)); steps_eq
  | |- observe.steps (os.EvWrite (os.temp_name ?O (str "drop-objects-*.sql")) ?b :: ?tr) = _ =>
      simple eapply (steps_cons_none _ tr _ (step_of_script O b)); steps_eq
  | |- observe.steps (?e :: ?tr) = _ =>
      simple eapply (steps_cons_none e tr _ eq_refl); steps_eq
  end.

Ltac steps_simpl :=
  lazymatch goal with
  | |- context [observe.steps ?tr] =>
      let x := fresh "x" in
      let H := fresh "H" in
      set (x := observe.steps tr);
      eassert (H : x = _) by (subst x; steps_eq);
      clearbody x; subst x
  end.

(** ** The claims about the orchestration *)

Import fmt config os schema observe.

(** C3, as the code has it.  The steps of a run are, in this order, the
    dump, the reset, the rewrite and the restore, or the first of them
    when the run fails; a run that returns no error has gone through all
    four.  The reset is issued before the dump is rewritten: the rewrite
    is part of [restoreSchema]. *)
Theorem steps_in_order O s fs :
  let r := DumpAndRestoreSchema O s (start fs) in
  steps (trace r.2) `prefix_of` [Dumper; Resetter; Rewriter; Restorer]
  /\ (r.1 = None -> steps (trace r.2) = [Dumper; Resetter; Rewriter; Restorer]).
Proof.
  change (wp (DumpAndRestoreSchema O s)
            (fun err w =>
               steps (trace w) `prefix_of` [Dumper; Resetter; Rewriter; Restorer]
               /\ (err = None -> steps (trace w) = [Dumper; Resetter; Rewriter; Restorer]))
            (start fs)).
  wp_run; steps_simpl;
    (split; [eexists; reflexivity | intros H; first [discriminate H | reflexivity]]).
Qed.

Lemma steps_in_order_witness :
  (DumpAndRestoreSchema sample.quiet sample.handler (start ∅)).1 = None
  /\ steps (trace (DumpAndRestoreSchema sample.quiet sample.handler (start ∅)).2)
     = [Dumper; Resetter; Rewriter; Restorer].
Proof.
  split; [by vm_compute|].
  apply (proj2 (steps_in_order sample.quiet sample.handler ∅)). by vm_compute.
Defined.

(** C3, as the specification has it, fails: in a run where every step
    succeeds the reset comes before the rewrite, not after it. *)
Lemma reset_before_rewrite :
  steps (trace (DumpAndRestoreSchema sample.quiet sample.handler (start ∅)).2)
    = [Dumper; Resetter; Rewriter; Restorer]
  /\ steps (trace (DumpAndRestoreSchema sample.quiet sample.handler (start ∅)).2)
    <> [Dumper; Rewriter; Resetter; Restorer].
Proof. split; by vm_compute. Qed.

(** C4.  When the external program of a step fails, the orchestration
    returns the error of that step, wrapped, with the error of the
    program and what it wrote to its standard error; that run is the
    last run and its step the last step of the trace, no step is there
    twice; and when the step is the dump, the dump is the only step. *)
Theorem abort_on_failure O s fs c fs' e :
  let r := DumpAndRestoreSchema O s (start fs) in
  (c, fs') ∈ runs (trace r.2) ->
  exit_error (child O c fs') = Some e ->
  exists st,
    step_of (EvRun c fs') = Some st
    /\ r.1 = Some (step_error st e (stderr (child O c fs')))
    /\ last (runs (trace r.2)) = Some (c, fs')
    /\ last (steps (trace r.2)) = Some st
    /\ NoDup (steps (trace r.2))
    /\ (st = Dumper -> steps (trace r.2) = [Dumper]).
Proof.
  change (wp (DumpAndRestoreSchema O s)
            (fun err w =>
               (c, fs') ∈ runs (trace w) ->
               exit_error (child O c fs') = Some e ->
               exists st,
                 step_of (EvRun c fs') = Some st
                 /\ err = Some (step_error st e (stderr (child O c fs')))
                 /\ last (runs (trace w)) = Some (c, fs')
                 /\ last (steps (trace w)) = Some st
                 /\ NoDup (steps (trace w))
                 /\ (st = Dumper -> steps (trace w) = [Dumper]))
            (start fs)).
  wp_run; runs_simpl; steps_simpl; intros Hin He.
  all: repeat (apply elem_of_cons in Hin as [Heq|Hin]);
    [..|by apply elem_of_nil in Hin].
  all: apply pair_equal_spec in Heq as [-> ->].
  all: try match goal with
         | H1 : ?x = None, H2 : ?y = Some _ |- _ =>
             constr_eq x y; exfalso; exact (none_some_False _ _ H1 H2)
         end.
  all: match goal with
       | H1 : ?x = Some _, H2 : ?y = Some _ |- _ =>
           constr_eq x y; assert_fails (constr_eq H1 H2);
           pose proof (some_some_eq _ _ _ H1 H2) as <-; clear H2
       end.
  all: eexists; split;
    [first [simple apply step_of_dump | simple apply step_of_reset
           | simple apply step_of_restore]|].
  all: split;
    [apply (f_equal Some);
     first [simple apply dump_error_text | simple apply reset_error_text
           | simple apply restore_error_text]|].
  all: split_and!; [reflexivity | reflexivity | compute_done | by intros [=]].
Qed.

Lemma abort_on_failure_witness :
  let r := DumpAndRestoreSchema sample.unreachable sample.handler (start ∅) in
  r.1 = Some (str "failed to dump schema: pg_dump failed: exit status 1, stderr: pg_dump: error: could not translate host name")
  /\ steps (trace r.2) = [Dumper].
Proof.
  intros r. split; [by vm_compute|].
  destruct (abort_on_failure sample.unreachable sample.handler ∅
              (dumpSchema_cmd sample.unreachable sample.handler
                 (str "/tmp/pg-migration-1234567/schema-dump-20240101-120000.sql"))
              (<[str "/tmp/pg-migration-1234567" := Dir]> ∅)
              (str "exit status 1"))
    as (st & Hst & _ & _ & _ & _ & Hd).
  - replace (runs _) with
      [(dumpSchema_cmd sample.unreachable sample.handler
          (str "/tmp/pg-migration-1234567/schema-dump-20240101-120000.sql"),
        (<[str "/tmp/pg-migration-1234567" := Dir]> ∅ : gmap text Node))]
      by (vm_compute; reflexivity).
    apply list_elem_of_here.
  - vm_compute; reflexivity.
  - apply Hd. rewrite step_of_dump in Hst. by injection Hst as <-.
Defined.


(** A name that was created is gone from the final file system. *)
Ltac solve_released :=
  lazymatch goal with
  | |- filter _ _ !! ?k = None =>
      lazymatch k with
      | os.Join _ _ ++ _ => simple apply RemoveAll_inside; simple apply inside_Join_app
      | os.Join _ _ => simple apply RemoveAll_inside; simple apply inside_Join
      | os.temp_name _ (str "pg-migration-*") => simple apply RemoveAll_self
      | _ => simple apply RemoveAll_absent; solve_released
      end
  | |- delete ?k (<[?k1 := _]> (<[?k2 := _]> _)) !! ?k' = None =>
      first [ constr_eq k k'; exact (lookup_delete_eq _ _)
            | simple apply absent_after_rewrite; solve_released ]
  | |- delete ?k (<[?k1 := _]> _) !! ?k' = None =>
      first [ constr_eq k k'; exact (lookup_delete_eq _ _)
            | simple apply absent_after_recreate; solve_released ]
  | |- delete ?k _ !! ?k' = None => constr_eq k k'; exact (lookup_delete_eq _ _)
  end.

(** C9.  Every directory and file that the dump-and-restore orchestration
    created (the temporary directory, the dump file in it, the script of
    the reset, the [.modified] file) is gone from the file system when the
    orchestration returns, whatever it returns; and so is the [.modified]
    file that [restoreSchema] created, when it returns. *)
Theorem temporary_storage_released O s fs p :
  (let r := DumpAndRestoreSchema O s (start fs) in
   p ∈ created (trace r.2) -> files r.2 !! p = None)
  /\ (forall dumpFilePath,
        let r := restoreSchema O s dumpFilePath (start fs) in
        p ∈ created (trace r.2) -> files r.2 !! p = None).
Proof.
  split; [|intros dumpFilePath].
  - change (wp (DumpAndRestoreSchema O s)
              (fun _ w => p ∈ created (trace w) -> files w !! p = None) (start fs)).
    wp_run; created_simpl; intros Hin.
    all: repeat (apply elem_of_cons in Hin as [->|Hin]);
      [..|by apply elem_of_nil in Hin].
    all: solve_released.
  - change (wp (restoreSchema O s dumpFilePath)
              (fun _ w => p ∈ created (trace w) -> files w !! p = None) (start fs)).
    wp_run; created_simpl; intros Hin.
    all: repeat (apply elem_of_cons in Hin as [->|Hin]);
      [..|by apply elem_of_nil in Hin].
    all: solve_released.
Qed.

Lemma temporary_storage_released_witness :
  let r := DumpAndRestoreSchema sample.quiet sample.handler (start ∅) in
  let p := str "/tmp/pg-migration-1234567/schema-dump-20240101-120000.sql" in
  p ∈ created (trace r.2) /\ files r.2 !! p = None.
Proof.
  intros r p.
  assert (Hin : p ∈ created (trace r.2)).
  { vm_compute. apply list_elem_of_further, list_elem_of_here. }
  split; [exact Hin|].
  exact (proj1 (temporary_storage_released sample.quiet sample.handler ∅ p) Hin).
Defined.

(** ** The commands of the handler *)

Import passed said.

Lemma commands_nil : commands [] = [].
Proof. done. Qed.

Lemma commands_cons_run c fs tr l :
  commands tr = l -> commands (EvRun c fs :: tr) = c :: l.
Proof. by intros <-. Qed.

Lemma commands_cons_other e tr l :
  match e with EvRun _ _ => False | _ => True end ->
  commands tr = l -> commands (e :: tr) = l.
Proof. destruct e; by intros ? <-. Qed.

Ltac commands_eq :=
  lazymatch goal with
  | |- observe.commands [] = _ => exact commands_nil
  | |- observe.commands (os.EvRun ?c ?fs :: ?tr) = _ =>
      simple eapply (commands_cons_run c fs tr); commands_eq
  | |- observe.commands (?e :: ?tr) = _ =>
      simple eapply (commands_cons_other e tr _ I); commands_eq
  end.

Ltac commands_simpl :=
  lazymatch goal with
  | |- context [observe.commands ?tr] =>
      let x := fresh "x" in
      let H := fresh "H" in
      set (x := observe.commands tr);
      eassert (H : x = _) by (subst x; commands_eq);
      clearbody x; subst x
  end.

Lemma dumpSchema_cmd_Args O s path :
  Args (dumpSchema_cmd O s path) =
    str "pg_dump" :: connection_flags (source s)
    ++ [str "--schema-only"; str "--no-owner"; str "--no-privileges"; str "-f"; path].
Proof. cbn -[itoa]. by rewrite app_nil_r. Qed.

Lemma dumpSchema_cmd_Env O s path :
  Env (dumpSchema_cmd O s path) = child_env O (source s).
Proof.
  unfold child_env. cbn -[itoa]. rewrite !app_nil_r.
  destruct (bool_decide (SSLMode (source s) = [])); cbn; by rewrite <- ?app_assoc, ?app_nil_r.
Qed.

Lemma dropExistingObjects_cmd_Args O s name :
  Args (dropExistingObjects_cmd O s name) =
    str "psql" :: connection_flags (target s) ++ [str "-f"; name].
Proof. cbn -[itoa]. by rewrite app_nil_r. Qed.

Lemma dropExistingObjects_cmd_Env O s name :
  Env (dropExistingObjects_cmd O s name) = child_env O (target s).
Proof.
  unfold child_env. cbn -[itoa]. rewrite !app_nil_r.
  destruct (bool_decide (SSLMode (target s) = [])); cbn; by rewrite <- ?app_assoc, ?app_nil_r.
Qed.

Lemma restoreSchema_cmd_Args O s name :
  Args (restoreSchema_cmd O s name) =
    str "psql" :: connection_flags (target s) ++ [str "-v"; str "ON_ERROR_STOP=1"].
Proof. cbn -[itoa]. by rewrite app_nil_r. Qed.

Lemma restoreSchema_cmd_Env O s name :
  Env (restoreSchema_cmd O s name) = child_env O (target s).
Proof.
  unfold child_env. cbn -[itoa]. rewrite !app_nil_r.
  destruct (bool_decide (SSLMode (target s) = [])); cbn; by rewrite <- ?app_assoc, ?app_nil_r.
Qed.


Ltac solve_well_passed :=
  lazymatch goal with
  | |- Forall _ [] => exact (Forall_nil_2 _)
  | |- Forall _ (schema.dumpSchema_cmd _ _ _ :: _) =>
      simple apply Forall_cons_2;
      [left; split; [simple apply dumpSchema_cmd_Args | simple apply dumpSchema_cmd_Env]
      |solve_well_passed]
  | |- Forall _ (schema.dropExistingObjects_cmd _ _ _ :: _) =>
      simple apply Forall_cons_2;
      [right; left; split;
       [simple apply dropExistingObjects_cmd_Args | simple apply dropExistingObjects_cmd_Env]
      |solve_well_passed]
  | |- Forall _ (schema.restoreSchema_cmd _ _ _ :: _) =>
      simple apply Forall_cons_2;
      [right; right; split;
       [simple apply restoreSchema_cmd_Args | simple apply restoreSchema_cmd_Env]
      |solve_well_passed]
  end.

(** C8.  Every command that the orchestration runs has, for its argument
    vector, the name of the program, the host, port, user and database of
    its endpoint and its own options (for the dump: schema only, no owner,
    no privileges, and the output file), and, for its environment, the
    environment of the handler with [PGPASSWORD] set to the password of the
    endpoint (and [PGSSLMODE] when the endpoint has an SSL mode); the
    connection parameters of the argument vector are the same whatever the
    password is. *)
Theorem password_only_in_environment O s fs :
  Forall (well_passed O s) (commands (trace (DumpAndRestoreSchema O s (start fs)).2))
  /\ (forall d password, connection_flags (with_password d password) = connection_flags d).
Proof.
  split; [|done].
  change (wp (DumpAndRestoreSchema O s)
            (fun _ w => Forall (well_passed O s) (commands (trace w))) (start fs)).
  wp_run; commands_simpl; solve_well_passed.
Qed.

(** The argument vectors of the sample run: neither password is in them. *)
Example sample_argument_vectors :
  map Args (commands (trace (DumpAndRestoreSchema sample.quiet sample.handler (start ∅)).2))
  = [ map str [ "pg_dump"; "-h"; "src.example.com"; "-p"; "5432"; "-U"; "alice";
                "-d"; "app"; "--schema-only"; "--no-owner"; "--no-privileges"; "-f";
                "/tmp/pg-migration-1234567/schema-dump-20240101-120000.sql" ]%string;
      map str [ "psql"; "-h"; "dst.example.com"; "-p"; "5433"; "-U"; "bob";
                "-d"; "app2"; "-f"; "/tmp/drop-objects-1234567.sql" ]%string;
      map str [ "psql"; "-h"; "dst.example.com"; "-p"; "5433"; "-U"; "bob";
                "-d"; "app2"; "-v"; "ON_ERROR_STOP=1" ]%string ].
Proof. vm_compute. reflexivity. Qed.

(** ** The reset *)

Import sql.

(** The reset is submitted: when the temporary file can be created and
    written, [dropExistingObjects] runs [psql] once, on the target and on
    that file, which holds the script. *)
Lemma reset_runs_once O s fs :
  fault O (SysCreateTemp (str "drop-objects-*.sql")) = None ->
  fs !! script_file O = None ->
  fault O (SysWrite (script_file O)) = None ->
  let r := dropExistingObjects O s (start fs) in
  let run := (dropExistingObjects_cmd O s (script_file O),
              <[script_file O := File dropScript]> fs) in
  runs (trace r.2) = [run]
  /\ reset_submitted O s run
  /\ Env run.1 = child_env O (target s)
  /\ (r.1 = None <-> exit_error (child O run.1 run.2) = None).
Proof.
  intros H1 H2 H3. unfold script_file in *.
  change (wp (dropExistingObjects O s)
            (fun err w =>
               let run := (dropExistingObjects_cmd O s (temp_name O (str "drop-objects-*.sql")),
                           <[temp_name O (str "drop-objects-*.sql") := File dropScript]> fs) in
               runs (trace w) = [run]
               /\ reset_submitted O s run
               /\ Env run.1 = child_env O (target s)
               /\ (err = None <-> exit_error (child O run.1 run.2) = None))
            (start fs)).
  wp_walk.
  all: try congruence.
  all: rewrite insert_insert_eq in *.
  all: runs_simpl; split; [reflexivity|]; split;
    [unfold reset_submitted, script_file; cbn [fst snd]; split;
     [simple apply dropExistingObjects_cmd_Args | exact (lookup_insert_eq _ _ _)]|].
  all: cbn [fst snd]; split; [simple apply dropExistingObjects_cmd_Env|].
  all: split; congruence.
Qed.

(** C5.  The script of [dropExistingObjects] is one [DO] block of six
    loops, in this order: the schemas whose name is not like [pg_%], is not
    [public] and is not [information_schema]; the functions of the schema
    [public], with their argument types; its tables; its types of type
    [c] (composite); its sequences; its views.  Each loop executes one
    [DROP ... IF EXISTS ... CASCADE] per row, a function being named with
    its argument types.  Whenever [dropExistingObjects] runs [psql], it is
    on the target and on a file that holds this script; and it does run
    it, once, with the password of the target in the environment and on
    a file that holds exactly this script, whenever its temporary file
    could be created and written, returning no error exactly when
    [psql] returns none. *)
Theorem reset_script_structure O s fs :
  words dropScript = block_words reset_block
  /\ map kind reset_block = [Schemas; Functions; Tables; CompositeTypes; Sequences; Views]
  /\ map conditions reset_block =
       [ [ NotLike (str "schema_name") (str "pg_%");
           NotEqual (str "schema_name") (str "public");
           NotEqual (str "schema_name") (str "information_schema") ];
         [ Equal (str "nspname") (str "public") ];
         [ Equal (str "schemaname") (str "public") ];
         [ Equal (str "nspname") (str "public"); Equal (str "typtype") (str "c") ];
         [ Equal (str "nspname") (str "public"); Equal (str "relkind") (str "S") ];
         [ Equal (str "schemaname") (str "public") ] ]
  /\ (forall quote_ident row,
        map (executed quote_ident row) reset_block =
          [ str "DROP SCHEMA IF EXISTS " ++ quote_ident (row (str "schema_name"))
              ++ str " CASCADE";
            str "DROP FUNCTION IF EXISTS public." ++ quote_ident (row (str "proname"))
              ++ str "(" ++ row (str "argtypes") ++ str ") CASCADE";
            str "DROP TABLE IF EXISTS public." ++ quote_ident (row (str "tablename"))
              ++ str " CASCADE";
            str "DROP TYPE IF EXISTS public." ++ quote_ident (row (str "typname"))
              ++ str " CASCADE";
            str "DROP SEQUENCE IF EXISTS public." ++ quote_ident (row (str "relname"))
              ++ str " CASCADE";
            str "DROP VIEW IF EXISTS public." ++ quote_ident (row (str "viewname"))
              ++ str " CASCADE" ])
  /\ Forall (reset_submitted O s) (runs (trace (dropExistingObjects O s (start fs)).2))
  /\ (fault O (SysCreateTemp (str "drop-objects-*.sql")) = None ->
      fs !! script_file O = None ->
      fault O (SysWrite (script_file O)) = None ->
      let r := dropExistingObjects O s (start fs) in
      let run := (dropExistingObjects_cmd O s (script_file O),
                  <[script_file O := File dropScript]> fs) in
      runs (trace r.2) = [run]
      /\ reset_submitted O s run
      /\ Env run.1 = child_env O (target s)
      /\ (r.1 = None <-> exit_error (child O run.1 run.2) = None)).
Proof.
  split_and!.
  - vm_compute. reflexivity.
  - reflexivity.
  - reflexivity.
  - intros quote_ident row. unfold executed. cbn [map reset_block statement concat].
    by rewrite ?app_nil_r.
  - change (wp (dropExistingObjects O s)
              (fun _ w => Forall (reset_submitted O s) (runs (trace w))) (start fs)).
    wp_run; runs_simpl;
      repeat lazymatch goal with
        | |- Forall _ [] => exact (Forall_nil_2 _)
        | |- Forall _ (_ :: _) =>
            simple apply Forall_cons_2;
            [unfold reset_submitted, script_file; cbn [fst snd]; split;
             [simple apply dropExistingObjects_cmd_Args
             | exact (lookup_insert_eq _ _ _)]|]
        end.
  - exact (reset_runs_once O s fs).
Qed.

Lemma reset_script_structure_witness :
  let O := sample.quiet in
  let s := sample.handler in
  let r := dropExistingObjects O s (start ∅) in
  let run := (dropExistingObjects_cmd O s (script_file O),
              <[script_file O := File dropScript]> (∅ : gmap text Node)) in
  runs (trace r.2) = [run]
  /\ reset_submitted O s run
  /\ Env run.1 = child_env O (target s)
  /\ (r.1 = None <-> exit_error (child O run.1 run.2) = None).
Proof.
  intros O s r run.
  destruct (reset_script_structure O s ∅) as (_ & _ & _ & _ & _ & H).
  apply H; [reflexivity | apply lookup_empty | reflexivity].
Defined.

(** ** The two rewriters *)

(** C10.  The text that [RestoreSchemaFromReader] makes of the bytes of its
    reader is the text that [processSchemaFile] makes of the same bytes;
    it is what the [psql] of [RestoreSchemaFromReader] reads on its standard
    input. *)
Theorem reader_rewrite_is_file_rewrite (t : text) :
  RestoreSchemaFromReader_content t = processSchemaFile_content t
  /\ (forall O s fs,
        Forall (reads (processSchemaFile_content t))
          (commands (trace (RestoreSchemaFromReader O s (StringReader t) (start fs)).2))).
Proof.
  split; [reflexivity|]. intros O s fs.
  change (wp (RestoreSchemaFromReader O s (StringReader t))
            (fun _ w => Forall (reads (processSchemaFile_content t)) (commands (trace w)))
            (start fs)).
  wp_run; commands_simpl;
    repeat lazymatch goal with
      | |- Forall _ [] => exact (Forall_nil_2 _)
      | |- Forall _ (schema.dropExistingObjects_cmd _ _ _ :: _) =>
          simple apply Forall_cons_2; [left; reflexivity|]
      | |- Forall _ (schema.RestoreSchemaFromReader_cmd _ _ _ :: _) =>
          simple apply Forall_cons_2; [right; reflexivity|]
      end.
Qed.

(** * What the code shows besides the claims *)

(** ** What the rewriter leaves behind *)

Import strings shown.

Lemma finished_at rules r r' :
  finished rules = true -> r ∈ rules -> r' ∈ rules ->
  (forall k, 0 < k < length r.1 -> compat (drop k r.1) r'.2 = false)
  /\ (forall i, i < length r'.2 -> compat r.1 (drop i r'.2) = true -> i = 0 /\ r = r').
Proof.
  unfold finished. rewrite forallb_forall. intros H Hin Hin'.
  apply list_elem_of_In, H in Hin. rewrite forallb_forall in Hin.
  apply list_elem_of_In, Hin in Hin'. apply andb_prop in Hin' as [H1 H2].
  rewrite forallb_forall in H1, H2. split.
  - intros k Hk. apply negb_true_iff. apply H1. apply in_seq. lia.
  - intros i Hi Hc. specialize (H2 i). rewrite Hc in H2. cbn in H2.
    assert (In i (seq 0 (length r'.2))) as Hseq by (apply in_seq; lia).
    apply H2, andb_prop in Hseq as [H3 H4].
    apply Nat.eqb_eq in H3. by apply bool_decide_eq_true in H4.
Qed.

(** An instance of a source prefix that starts in copied text and runs
    into the rewritten rest was in the document. *)
Lemma HasPrefix_scan_head rules p u s :
  (forall r' k, r' ∈ rules -> 0 < k < length p -> compat (drop k p) r'.2 = false) ->
  u <> [] ->
  HasPrefix (u ++ scan rules 0 s) p = true -> HasPrefix (u ++ s) p = true.
Proof.
  intros Hp. remember (length s) as n eqn:Hn.
  revert s u Hn. induction n as [n IH] using lt_wf_ind. intros s u Hn Hu.
  destruct s as [|c s]; [done|].
  rewrite scan_cons. destruct (find_rule rules (c :: s)) as [r|] eqn:Hr.
  - apply find_rule_Some in Hr as [Hin Hpre].
    destruct (le_lt_dec (length p) (length u)) as [Hl|Hl].
    + by rewrite (HasPrefix_app_long u _ (c :: s)).
    + intros H%HasPrefix_app_short; [|done].
      apply HasPrefix_app_compat in H.
      rewrite Hp in H; [done|done|]. destruct u; [done|simpl in *; lia].
  - rewrite (cons_middle c u (scan _ _ _)), (cons_middle c u s), !app_assoc.
    apply (IH (length s)); [simpl in Hn; lia | done | by destruct u].
Qed.

(** In the output of one pass, a source prefix is found only where the
    pass wrote the rewritten prefix of its rule. *)
Lemma scan_instances rules t i r :
  separate rules = true -> finished rules = true -> r ∈ rules ->
  HasPrefix (drop i (scan rules 0 t)) r.1 = true ->
  HasPrefix (drop i (scan rules 0 t)) r.2 = true.
Proof.
  intros Hs Hf Hin. remember (length t) as n eqn:Hn.
  destruct (separate_at _ _ _ Hs Hin Hin) as (Hne & _ & _).
  revert t i Hn. induction n as [n IH] using lt_wf_ind. intros t i Hn.
  destruct t as [|c s].
  { cbn. rewrite drop_nil. destruct r.1; done. }
  rewrite scan_cons. destruct (find_rule rules (c :: s)) as [r'|] eqn:Hr.
  - apply find_rule_Some in Hr as [Hin' Hpre].
    destruct (separate_at _ _ _ Hs Hin' Hin') as (Hne' & _ & _).
    destruct (le_lt_dec (length r'.2) i) as [Hl|Hl].
    + rewrite !drop_app_ge by done.
      apply (IH (length (drop (length r'.1 - 1) s))); [|done].
      rewrite length_drop. simpl in Hn. lia.
    + rewrite drop_app_le by lia. intros H.
      destruct (finished_at _ _ _ Hf Hin Hin') as [_ H2].
      destruct (H2 i Hl) as [-> ->]; [by apply HasPrefix_app_compat in H|].
      rewrite drop_0. apply HasPrefix_app.
  - destruct i as [|i].
    + rewrite !drop_0. intros H.
      apply (HasPrefix_scan_head rules r.1 [c] s) in H; [| |done].
      * pose proof (find_rule_None _ _ _ Hr Hin) as Hno. cbn [app] in H. congruence.
      * intros r' k Hin' Hk. by apply (finished_at _ _ _ Hf Hin Hin').
    + cbn [drop]. apply (IH (length s)); [simpl in Hn; lia|done].
Qed.

Lemma rule_table_finished : finished rule_table = true.
Proof. by vm_compute. Qed.

(** X1.  Wherever the rewritten document has the source prefix of a rule,
    it has the rewritten prefix of that rule there: no creation statement
    of the six kinds is left in its bare form, whatever the input was. *)
Theorem processSchemaFile_content_repeat_safe t i r :
  r ∈ rule_table ->
  HasPrefix (drop i (processSchemaFile_content t)) r.1 = true ->
  HasPrefix (drop i (processSchemaFile_content t)) r.2 = true.
Proof.
  rewrite processSchemaFile_content_scan.
  apply scan_instances; [apply rule_table_separate | apply rule_table_finished].
Qed.

Lemma Contains_true_drop s p :
  Contains s p = true -> exists i, HasPrefix (drop i s) p = true.
Proof.
  unfold Contains. destruct (Index s p) as [i|] eqn:E; [|done].
  intros _. exists i. by apply Index_Some_HasPrefix.
Qed.

Lemma processSchemaFile_content_repeat_safe_witness :
  HasPrefix (drop 3 (processSchemaFile_content (str "x; CREATE TABLE t (id int);")))
    (str "CREATE TABLE IF NOT EXISTS ") = true.
Proof.
  apply (processSchemaFile_content_repeat_safe _ 3
           (str "CREATE TABLE ", str "CREATE TABLE IF NOT EXISTS "));
    [in_rule_table | by vm_compute].
Defined.

(** X2.  The rewritten document never contains [CREATE FUNCTION ] or
    [CREATE VIEW ]: the two replacements by [CREATE OR REPLACE] leave no
    instance and the later replacements make none. *)
Theorem processSchemaFile_content_no_bare_function_view t :
  Contains (processSchemaFile_content t) (str "CREATE FUNCTION ") = false /\
  Contains (processSchemaFile_content t) (str "CREATE VIEW ") = false.
Proof.
  split.
  - destruct (Contains _ _) eqn:E; [|done].
    apply Contains_true_drop in E as [i Hi].
    pose proof (processSchemaFile_content_repeat_safe t i
      (str "CREATE FUNCTION ", str "CREATE OR REPLACE FUNCTION ")) as H.
    cbn [fst snd] in H. specialize (H ltac:(in_rule_table) Hi).
    apply HasPrefix_true in Hi as [x Hx]. apply HasPrefix_true in H as [y Hy].
    rewrite Hx in Hy. discriminate Hy.
  - destruct (Contains _ _) eqn:E; [|done].
    apply Contains_true_drop in E as [i Hi].
    pose proof (processSchemaFile_content_repeat_safe t i
      (str "CREATE VIEW ", str "CREATE OR REPLACE VIEW ")) as H.
    cbn [fst snd] in H. specialize (H ltac:(in_rule_table) Hi).
    apply HasPrefix_true in Hi as [x Hx]. apply HasPrefix_true in H as [y Hy].
    rewrite Hx in Hy. discriminate Hy.
Qed.

(** ** The length of the rewritten text *)

Lemma compat_sym a b : compat a b = compat b a.
Proof. unfold compat. apply orb_comm. Qed.

Lemma Count_nil old : old <> [] -> Count [] old = 0.
Proof. intros H. rewrite Count_unfold by done. by destruct old. Qed.

(** [strings.Count], byte by byte. *)
Lemma Count_cons old c s :
  old <> [] ->
  Count (c :: s) old =
    if HasPrefix (c :: s) old then S (Count (drop (length old) (c :: s)) old)
    else Count s old.
Proof.
  intros H. rewrite Count_unfold, Index_cons by done.
  destruct (HasPrefix (c :: s) old); [done|].
  rewrite (Count_unfold old H s). by destruct (Index s old).
Qed.

(** Bytes at which no instance starts can be skipped. *)
Lemma Count_skip old n s :
  old <> [] ->
  (forall k, k < n -> HasPrefix (drop k s) old = false) ->
  Count s old = Count (drop n s) old.
Proof.
  intros H. revert s. induction n as [|n IH]; intros s Hk; [by rewrite drop_0|].
  destruct s as [|c s]; [done|].
  rewrite Count_cons by done.
  pose proof (Hk 0 ltac:(lia)) as H0. rewrite drop_0 in H0. rewrite H0.
  cbn [drop]. apply IH.
  intros k Hlt. apply (Hk (S k)). lia.
Qed.

Lemma Count_0_Contains old s :
  old <> [] -> Count s old = 0 <-> Contains s old = false.
Proof.
  intros H. rewrite Count_unfold by done. unfold Contains.
  by destruct (Index s old).
Qed.

Lemma added_cons r rules t :
  added (r :: rules) t = (length r.2 - length r.1) * Count t r.1 + added rules t.
Proof. done. Qed.

Lemma added_ext rules s t :
  (forall r, r ∈ rules -> Count s r.1 = Count t r.1) ->
  added rules s = added rules t.
Proof.
  induction rules as [|r rules IH]; intros H; [done|].
  rewrite !added_cons, H by apply list_elem_of_here.
  rewrite IH; [done|]. intros r' Hr'. by apply H, list_elem_of_further.
Qed.

Lemma added_hit rules r s t :
  NoDup rules -> r ∈ rules ->
  Count s r.1 = S (Count t r.1) ->
  (forall r', r' ∈ rules -> r' <> r -> Count s r'.1 = Count t r'.1) ->
  added rules s = (length r.2 - length r.1) + added rules t.
Proof.
  induction rules as [|r0 rules IH]; intros Hnd Hin Hr Ho.
  { by apply elem_of_nil in Hin. }
  apply NoDup_cons in Hnd as [Hnotin Hnd]. rewrite !added_cons.
  destruct (decide (r0 = r)) as [->|Hne].
  - rewrite Hr, (added_ext rules s t); [lia|].
    intros r' Hr'. apply Ho; [by apply list_elem_of_further|].
    by intros ->.
  - rewrite (Ho r0) by (done || apply list_elem_of_here).
    apply elem_of_cons in Hin as [->|Hin]; [done|].
    rewrite IH; [lia|done|done|done|].
    intros r' Hr'. apply Ho. by apply list_elem_of_further.
Qed.

Lemma added_nil rules :
  (forall r, r ∈ rules -> r.1 <> []) -> added rules [] = 0.
Proof.
  induction rules as [|r rules IH]; intros H; [done|].
  rewrite added_cons, Count_nil by apply H, list_elem_of_here.
  rewrite IH; [lia|]. intros r' Hr'. by apply H, list_elem_of_further.
Qed.

(** The length of the output of one pass. *)
Lemma scan_length rules t :
  separate rules = true -> NoDup rules ->
  (forall r, r ∈ rules -> length r.1 <= length r.2) ->
  length (scan rules 0 t) = length t + added rules t.
Proof.
  intros Hs Hnd Hle. remember (length t) as n eqn:Hn.
  revert t Hn. induction n as [n IH] using lt_wf_ind. intros t Hn.
  destruct t as [|c s].
  { rewrite added_nil; [by subst|]. intros r Hr.
    by destruct (separate_at _ _ _ Hs Hr Hr). }
  rewrite scan_cons. destruct (find_rule rules (c :: s)) as [r|] eqn:Hr.
  - apply find_rule_Some in Hr as [Hin Hpre].
    destruct (separate_at _ _ _ Hs Hin Hin) as (Hne & _ & _).
    assert (drop (length r.1 - 1) s = drop (length r.1) (c :: s)) as ->.
    { destruct r.1; [done|]. cbn [length drop Nat.sub]. by rewrite ?Nat.sub_0_r. }
    pose proof (HasPrefix_length _ _ Hpre) as Hlen.
    pose proof (HasPrefix_split _ _ Hpre) as Hsplit.
    rewrite length_app.
    rewrite (IH (length (drop (length r.1) (c :: s)))); [| |done].
    2:{ rewrite length_drop. destruct r.1; [done|]. simpl in *. lia. }
    rewrite (added_hit rules r (c :: s) (drop (length r.1) (c :: s))); [| done | done | |].
    + rewrite length_drop. specialize (Hle r Hin). subst n. lia.
    + by rewrite Count_cons, Hpre.
    + intros r' Hin' Hne'.
      destruct (separate_at _ _ _ Hs Hin' Hin') as (Hne2 & _ & _).
      apply Count_skip; [done|]. intros k Hk.
      destruct (HasPrefix (drop k (c :: s)) r'.1) eqn:E; [|done].
      rewrite Hsplit, drop_app_le in E by lia.
      apply HasPrefix_app_compat in E.
      destruct (separate_at _ _ _ Hs Hin Hin') as (_ & H0 & Hk').
      destruct k as [|k].
      * rewrite drop_0, compat_sym in E. by apply H0 in E.
      * rewrite compat_sym, Hk' in E by lia. done.
  - cbn [length]. rewrite (IH (length s)); [| simpl in Hn; lia | done].
    rewrite (added_ext rules (c :: s) s); [subst n; simpl; lia|].
    intros r Hin. destruct (separate_at _ _ _ Hs Hin Hin) as (Hne & _ & _).
    by rewrite Count_cons, (find_rule_None _ _ _ Hr Hin).
Qed.

Lemma rule_table_NoDup : NoDup rule_table.
Proof. apply (bool_decide_unpack (NoDup rule_table)). by vm_compute. Qed.

Lemma added_0 rules t r :
  added rules t = 0 -> r ∈ rules -> length r.1 < length r.2 -> Count t r.1 = 0.
Proof.
  induction rules as [|r0 rules IH]; intros H Hr Hlt.
  { by apply elem_of_nil in Hr. }
  rewrite added_cons in H. apply Nat.eq_add_0 in H as [H1 H2].
  apply elem_of_cons in Hr as [->|Hr]; [|by apply IH].
  apply Nat.eq_mul_0 in H1 as [H1|H1]; [lia|done].
Qed.

Lemma rule_table_longer r : r ∈ rule_table -> length r.1 < length r.2.
Proof.
  revert r. apply Forall_forall.
  apply (bool_decide_unpack (Forall _ rule_table)). by vm_compute.
Qed.

(** X3.  The rewriter never shortens a document: it adds the 14 bytes of
    [IF NOT EXISTS ] for every instance of a schema, table, index or
    sequence prefix and the 11 bytes of [OR REPLACE ] for every instance
    of a function or view prefix, the instances being those that
    [strings.Count] counts in the input. *)
Theorem processSchemaFile_content_length t :
  length (processSchemaFile_content t) =
    length t
    + 14 * (Count t (str "CREATE SCHEMA ") + Count t (str "CREATE TABLE ")
            + Count t (str "CREATE INDEX ") + Count t (str "CREATE SEQUENCE "))
    + 11 * (Count t (str "CREATE FUNCTION ") + Count t (str "CREATE VIEW ")).
Proof.
  rewrite processSchemaFile_content_scan, scan_length.
  - unfold rule_table. cbn [added fst snd].
    replace (length (str "CREATE SCHEMA IF NOT EXISTS ") - length (str "CREATE SCHEMA ")) with 14 by done.
    replace (length (str "CREATE OR REPLACE FUNCTION ") - length (str "CREATE FUNCTION ")) with 11 by done.
    replace (length (str "CREATE TABLE IF NOT EXISTS ") - length (str "CREATE TABLE ")) with 14 by done.
    replace (length (str "CREATE INDEX IF NOT EXISTS ") - length (str "CREATE INDEX ")) with 14 by done.
    replace (length (str "CREATE SEQUENCE IF NOT EXISTS ") - length (str "CREATE SEQUENCE ")) with 14 by done.
    replace (length (str "CREATE OR REPLACE VIEW ") - length (str "CREATE VIEW ")) with 11 by done.
    lia.
  - apply rule_table_separate.
  - apply rule_table_NoDup.
  - intros r' Hr'. apply rule_table_longer in Hr'. lia.
Qed.

Ltac count_atoms :=
  lazymatch goal with
  | Hlen : context [Count ?t _] |- _ =>
      revert Hlen;
      generalize (Count t (str "CREATE SCHEMA ")) (Count t (str "CREATE TABLE "))
        (Count t (str "CREATE INDEX ")) (Count t (str "CREATE SEQUENCE "))
        (Count t (str "CREATE FUNCTION ")) (Count t (str "CREATE VIEW "));
      intros; lia
  end.

(** X4.  The rewriter returns its input unchanged exactly when the input
    contains none of the six source prefixes. *)
Theorem processSchemaFile_content_unchanged_iff t :
  processSchemaFile_content t = t <->
  forall r, r ∈ rule_table -> Contains t r.1 = false.
Proof.
  split; [|apply processSchemaFile_content_fixed].
  intros H r Hr.
  destruct (separate_at _ _ _ rule_table_separate Hr Hr) as (Hne & _ & _).
  apply Count_0_Contains; [done|].
  apply (added_0 rule_table); [|done|by apply rule_table_longer].
  apply (f_equal length) in H.
  rewrite processSchemaFile_content_scan, scan_length in H.
  - revert H. generalize (length t) (added rule_table t). clear. intros; lia.
  - apply rule_table_separate.
  - apply rule_table_NoDup.
  - intros r' Hr'. apply rule_table_longer in Hr'. lia.
Qed.

(** ** The rewriter, line by line *)

Lemma HasPrefix_cons_inv c s a p :
  HasPrefix (c :: s) (a :: p) = true -> a = c /\ HasPrefix s p = true.
Proof.
  cbn [HasPrefix]. intros [H1 H2]%andb_prop. split; [|done].
  by apply Ascii.eqb_eq.
Qed.

(** A prefix that does not have the byte [c] does not reach over it. *)
Lemma HasPrefix_sep u c b p :
  c ∉ p -> HasPrefix (u ++ c :: b) p = true -> HasPrefix u p = true.
Proof.
  revert u. induction p as [|a p IH]; intros u Hc; [by rewrite !HasPrefix_nil|].
  destruct u as [|d u].
  - intros [-> _]%HasPrefix_cons_inv. exfalso. apply Hc, list_elem_of_here.
  - cbn [app HasPrefix]. intros [H1 H2]%andb_prop. rewrite H1. cbn.
    apply IH; [|done]. intros Hin. apply Hc. by apply list_elem_of_further.
Qed.

Lemma find_rule_none rules s :
  (forall r, r ∈ rules -> HasPrefix s r.1 = false) -> find_rule rules s = None.
Proof.
  induction rules as [|r rules IH]; intros H; [done|].
  cbn [find_rule]. rewrite H by apply list_elem_of_here.
  apply IH. intros r' Hr'. by apply H, list_elem_of_further.
Qed.

Lemma scan_sep rules a c b :
  (forall r, r ∈ rules -> r.1 <> [] /\ c ∉ r.1) ->
  scan rules 0 (a ++ c :: b) = scan rules 0 a ++ c :: scan rules 0 b.
Proof.
  intros H. rewrite scan_app.
  - rewrite (scan_cons rules c b), find_rule_none; [done|].
    intros r Hr. destruct (H r Hr) as [Hne Hc].
    destruct (HasPrefix (c :: b) r.1) eqn:E; [|done].
    destruct r.1 as [|x p]; [done|].
    apply HasPrefix_cons_inv in E as [-> _]. exfalso. apply Hc, list_elem_of_here.
  - intros r i Hr _. apply HasPrefix_sep. by apply H.
Qed.

Lemma joined_cons e e' elems sep :
  joined (e :: e' :: elems) sep = e ++ sep ++ joined (e' :: elems) sep.
Proof. done. Qed.

(** X5.  The rewriter works line by line: for a separator byte that is
    in none of the six source prefixes (a line feed, a semicolon),
    rewriting the lines joined by the separator is joining the rewritten
    lines. *)
Theorem processSchemaFile_content_by_lines (c : ascii) (lines : list text) :
  (forall r, r ∈ rule_table -> c ∉ r.1) ->
  processSchemaFile_content (joined lines [c]) =
    joined (map processSchemaFile_content lines) [c].
Proof.
  intros Hc. induction lines as [|l [|l' lines] IH].
  { cbn [joined map]. by rewrite processSchemaFile_content_scan. }
  { cbn [joined map]. reflexivity. }
  rewrite (joined_cons l l' lines). cbn [map]. rewrite joined_cons. cbn [app].
  rewrite processSchemaFile_content_scan, scan_sep.
  - rewrite <- (processSchemaFile_content_scan l),
      <- (processSchemaFile_content_scan (joined (l' :: lines) [c])), IH.
    reflexivity.
  - intros r Hr. split; [|by apply Hc].
    by destruct (separate_at _ _ _ rule_table_separate Hr Hr).
Qed.

Lemma processSchemaFile_content_by_lines_witness :
  processSchemaFile_content
    (joined [str "CREATE TABLE t (id int);"; str "CREATE VIEW v AS SELECT 1;"] ["010"%char]) =
  joined (map processSchemaFile_content
          [str "CREATE TABLE t (id int);"; str "CREATE VIEW v AS SELECT 1;"]) ["010"%char].
Proof.
  apply (processSchemaFile_content_by_lines "010"%char).
  apply Forall_forall.
  apply (bool_decide_unpack (Forall _ rule_table)). by vm_compute.
Defined.

(** ** Loading a configuration *)

Import fmt config strconv shown.

(** The cases of the port of a loader. *)
Ltac load_port :=
  lazy zeta;
  lazymatch goal with
  | |- context [(?port =? 0)%Z] =>
      destruct (Z.eqb_spec port 0) as [Hport|Hport];
      [ lazymatch goal with
        | |- context [negb (bool_decide (?v = []))] =>
            destruct (bool_decide_reflect (v = [])) as [Henv|Henv];
            [ | lazymatch goal with
                | |- context [Atoi ?q v] => destruct (Atoi q v) as [n [e|]] eqn:Hatoi
                end ]
        end
      | ]
  end;
  cbn [fst snd negb Errorf].

(** The configuration that a loader validates, field by field. *)
Ltac load_usable :=
  load_port;
  try lazymatch goal with
  | |- context [Build_DBConfig ?h ?p ?u ?pw ?d (if bool_decide (?S = []) then _ else _)] =>
      generalize h u pw d S; intros h' u' pw' d' S'
  end;
  lazymatch goal with
  | |- context [validateConfig ?c] =>
      destruct (validateConfig c) eqn:Hv; [exact I|];
      split; [exact Hv|]; unfold ConnectionString;
      cbn [Port SSLMode Host User Password Database];
      repeat lazymatch goal with
             | |- context [(?n =? 0)%Z] => destruct (Z.eqb_spec n 0)
             | |- context [bool_decide (?v = [])] => destruct (bool_decide_reflect (v = []))
             end;
      done
  | |- _ => exact I
  end.

(** X6.  [LoadSourceConfig] and [LoadTargetConfig] return a configuration
    or an error, never both and never neither; a configuration they
    return passes [validateConfig], has a port other than 0 and a
    non-empty SSL mode, so that [ConnectionString] prints that SSL mode
    and never its own default. *)
Theorem loaded_config_usable Quote Getenv host port user password database sslMode :
  usable (LoadSourceConfig Quote Getenv host port user password database sslMode) /\
  usable (LoadTargetConfig Quote Getenv host port user password database sslMode).
Proof.
  split.
  - unfold LoadSourceConfig, usable. load_usable.
  - unfold LoadTargetConfig, usable. load_usable.
Qed.

Lemma bool_decide_nil_false (v : text) : v <> [] -> bool_decide (v = []) = false.
Proof. intros. by apply bool_decide_eq_false_2. Qed.

(** X7.  When all six values are given on the command line, both loaders
    return exactly these values, whatever the environment holds; no
    value is checked beyond being given (a negative port is accepted). *)
Theorem flags_take_precedence Quote Getenv host port user password database sslMode :
  host <> [] -> port <> 0%Z -> user <> [] -> password <> [] -> database <> [] ->
  sslMode <> [] ->
  let given :=
    {| Host := host; Port := port; User := user; Password := password;
       Database := database; SSLMode := sslMode |} in
  LoadSourceConfig Quote Getenv host port user password database sslMode = (Some given, None) /\
  LoadTargetConfig Quote Getenv host port user password database sslMode = (Some given, None).
Proof.
  intros Hh Hp Hu Hpw Hd Hs given. subst given.
  unfold LoadSourceConfig, LoadTargetConfig. lazy zeta.
  apply Z.eqb_neq in Hp. rewrite !Hp. cbn [fst snd].
  rewrite !(bool_decide_nil_false host), !(bool_decide_nil_false user),
    !(bool_decide_nil_false password), !(bool_decide_nil_false database),
    !(bool_decide_nil_false sslMode) by done.
  rewrite ?Hp, ?(bool_decide_nil_false sslMode) by done.
  unfold validateConfig. cbn [Host User Password Database].
  by rewrite !(bool_decide_nil_false host), !(bool_decide_nil_false user),
    !(bool_decide_nil_false password), !(bool_decide_nil_false database) by done.
Qed.

Lemma flags_take_precedence_witness :
  let given :=
    {| Host := str "db"; Port := (-1)%Z; User := str "u"; Password := str "p";
       Database := str "d"; SSLMode := str "disable" |} in
  LoadSourceConfig (fun s => s) (fun _ => str "x") (str "db") (-1) (str "u") (str "p") (str "d")
    (str "disable") = (Some given, None) /\
  LoadTargetConfig (fun s => s) (fun _ => str "x") (str "db") (-1) (str "u") (str "p") (str "d")
    (str "disable") = (Some given, None).
Proof.
  apply (flags_take_precedence (fun s => s) (fun _ => str "x")); done.
Defined.

(** X8.  With no port and no SSL mode on the command line, a port
    variable that is not set, or that parses to 0, gives the port 5432,
    and an SSL mode variable that is not set gives [require]. *)
Theorem load_defaults Quote Getenv host user password database c :
  (Getenv (str "SOURCE_DB_PORT") = [] \/
   Atoi Quote (Getenv (str "SOURCE_DB_PORT")) = (0%Z, None)) ->
  Getenv (str "SOURCE_DB_SSLMODE") = [] ->
  LoadSourceConfig Quote Getenv host 0 user password database [] = (Some c, None) ->
  Port c = 5432%Z /\ SSLMode c = str "require".
Proof.
  intros Hport Hssl. unfold LoadSourceConfig. lazy zeta.
  rewrite Hssl. change (0 =? 0)%Z with true. cbv iota.
  assert ((if negb (bool_decide (Getenv (str "SOURCE_DB_PORT") = []))
           then let '(n, err) := Atoi Quote (Getenv (str "SOURCE_DB_PORT")) in
                match err with
                | Some e => (n, Errorf (str "invalid SOURCE_DB_PORT: %v") [Str e])
                | None => (n, None)
                end
           else (0%Z, None)) = (0%Z, None)) as ->.
  { destruct Hport as [->| ->]; [done|]. by destruct (negb _). }
  cbn [fst snd]. change (0 =? 0)%Z with true. cbv iota.
  rewrite !(bool_decide_eq_true_2 (@nil ascii = [])) by done.
  destruct (validateConfig _); [done|]. by intros [= <-].
Qed.

Lemma load_defaults_witness :
  let c := {| Host := str "h"; Port := 5432; User := str "u"; Password := str "p";
              Database := str "d"; SSLMode := str "require" |} in
  Port c = 5432%Z /\ SSLMode c = str "require".
Proof.
  apply (load_defaults (fun s => s)
           (fun k => if bool_decide (k = str "SOURCE_DB_PORT") then str "+000" else [])
           (str "h") (str "u") (str "p") (str "d")).
  - right. reflexivity.
  - reflexivity.
  - reflexivity.
Defined.

(** X9.  With no port on the command line, a port variable that is set
    and does not parse is reported as [invalid SOURCE_DB_PORT: ...] with
    the message of [strconv.Atoi], whatever the other values are, even
    when required ones are missing. *)
Theorem invalid_port_reported Quote Getenv host user password database sslMode n e :
  Getenv (str "SOURCE_DB_PORT") <> [] ->
  Atoi Quote (Getenv (str "SOURCE_DB_PORT")) = (n, Some e) ->
  LoadSourceConfig Quote Getenv host 0 user password database sslMode =
    (None, Some (str "invalid SOURCE_DB_PORT: " ++ e)).
Proof.
  intros Henv Hatoi.
  unfold LoadSourceConfig. lazy zeta. change (0 =? 0)%Z with true. cbv iota.
  rewrite (bool_decide_nil_false _ Henv), Hatoi. cbn [negb fst snd Errorf].
  do 2 f_equal. cbn. by rewrite app_nil_r.
Qed.

Lemma invalid_port_reported_witness :
  LoadSourceConfig (fun s => s) (fun _ => str "5432x") [] 0 [] [] [] [] =
    (None, Some (str "invalid SOURCE_DB_PORT: " ++
                 NumError (fun s => s) (str "5432x") (str "invalid syntax"))).
Proof.
  apply (invalid_port_reported (fun s => s) (fun _ => str "5432x") [] [] [] [] [] 0%Z);
    [done|reflexivity].
Defined.

(** X10.  The port variables are read only when no port is given on the
    command line: with a port given, what the loaders return does not
    depend on them. *)
Theorem port_flag_shields_environment Quote Getenv Getenv' host port user password database
    sslMode :
  port <> 0%Z ->
  (forall k, k <> str "SOURCE_DB_PORT" -> k <> str "TARGET_DB_PORT" -> Getenv' k = Getenv k) ->
  LoadSourceConfig Quote Getenv' host port user password database sslMode =
    LoadSourceConfig Quote Getenv host port user password database sslMode /\
  LoadTargetConfig Quote Getenv' host port user password database sslMode =
    LoadTargetConfig Quote Getenv host port user password database sslMode.
Proof.
  intros Hp%Z.eqb_neq H. unfold LoadSourceConfig, LoadTargetConfig. lazy zeta.
  rewrite !Hp. cbn [fst snd]. by rewrite !H.
Qed.

Lemma port_flag_shields_environment_witness :
  LoadSourceConfig (fun s => s) (fun k => if bool_decide (k = str "SOURCE_DB_PORT") then str "x" else [])
    (str "h") 1 (str "u") (str "p") (str "d") [] =
  LoadSourceConfig (fun s => s) (fun _ => []) (str "h") 1 (str "u") (str "p") (str "d") [] /\
  LoadTargetConfig (fun s => s) (fun k => if bool_decide (k = str "SOURCE_DB_PORT") then str "x" else [])
    (str "h") 1 (str "u") (str "p") (str "d") [] =
  LoadTargetConfig (fun s => s) (fun _ => []) (str "h") 1 (str "u") (str "p") (str "d") [].
Proof.
  apply port_flag_shields_environment; [done|].
  intros k Hk _. by rewrite bool_decide_eq_false_2.
Defined.

Lemma retarget_names :
  retarget (str "SOURCE_DB_HOST") = str "TARGET_DB_HOST" /\
  retarget (str "SOURCE_DB_PORT") = str "TARGET_DB_PORT" /\
  retarget (str "SOURCE_DB_USER") = str "TARGET_DB_USER" /\
  retarget (str "SOURCE_DB_PASSWORD") = str "TARGET_DB_PASSWORD" /\
  retarget (str "SOURCE_DB_NAME") = str "TARGET_DB_NAME" /\
  retarget (str "SOURCE_DB_SSLMODE") = str "TARGET_DB_SSLMODE".
Proof. by vm_compute. Qed.

(** X11.  The two loaders are the same function up to the names of the
    variables they read: [LoadTargetConfig] returns the configuration
    that [LoadSourceConfig] returns in the environment where each
    [SOURCE_DB_] variable holds what the [TARGET_DB_] one holds, and
    fails when it fails. *)
Theorem loaders_agree Quote Getenv host port user password database sslMode :
  let src := LoadSourceConfig Quote (fun k => Getenv (retarget k))
               host port user password database sslMode in
  let tgt := LoadTargetConfig Quote Getenv host port user password database sslMode in
  src.1 = tgt.1 /\ (src.2 = None <-> tgt.2 = None).
Proof.
  destruct retarget_names as (E1 & E2 & E3 & E4 & E5 & E6).
  unfold LoadSourceConfig, LoadTargetConfig. lazy zeta.
  rewrite E1, E2, E3, E4, E5, E6. clear.
  destruct (port =? 0)%Z.
  - destruct (negb _).
    + destruct (Atoi _ _) as [n [e|]]; cbn [fst snd Errorf].
      * split; [reflexivity|]. split; intros; discriminate.
      * destruct (validateConfig _); (split; [reflexivity|]); done.
    + cbn [fst snd]. destruct (validateConfig _); (split; [reflexivity|]); done.
  - cbn [fst snd]. destruct (validateConfig _); (split; [reflexivity|]); done.
Qed.

(** ** The file system and the standard input of the commands *)

Import fmt config os schema observe passed said shown.

(** A file that was not there, created, written and removed. *)
Lemma recreate_absent (m : gmap text Node) k v v' :
  m !! k = None -> delete k (<[k := v]> (<[k := v']> m)) = m.
Proof. intros H. by rewrite delete_insert_eq, delete_insert_id. Qed.

(** X12.  [dropExistingObjects] leaves the local file system exactly as
    it found it, on every path: the script file it creates is removed,
    and it creates none when a file of that name exists. *)
Theorem reset_leaves_files_as_found O s fs :
  files (dropExistingObjects O s (start fs)).2 = fs.
Proof.
  change (wp (dropExistingObjects O s) (fun _ w => files w = fs) (start fs)).
  wp_walk.
  all: first [reflexivity | by apply delete_insert_id | by apply recreate_absent].
Qed.

Lemma modified_ne p : p ++ str ".modified" <> p.
Proof.
  intros H. apply (f_equal length) in H. rewrite length_app in H. simpl in H. lia.
Qed.

Lemma frame_rewritten (m : gmap text Node) k q v v' :
  q <> k -> delete k (<[k := v]> (<[k := v']> m)) !! q = m !! q.
Proof. intros H. by rewrite lookup_delete_ne, !lookup_insert_ne. Qed.

Lemma frame_created (m : gmap text Node) k q v :
  q <> k -> delete k (<[k := v]> m) !! q = m !! q.
Proof. intros H. by rewrite lookup_delete_ne, lookup_insert_ne. Qed.

Lemma Stdin_restore O s name : Stdin (restoreSchema_cmd O s name) = FileReader name.
Proof. reflexivity. Qed.

(** Every path of [RestoreSchemaFromFile], walked once. *)
Lemma RestoreSchemaFromFile_paths O s fs p :
  wp (RestoreSchemaFromFile O s p)
    (fun err w =>
       (forall q, q <> p ++ str ".modified" -> files w !! q = fs !! q)
       /\ (forall t, fs !! p = Some (File t) ->
             Forall (fed (processSchemaFile_content t)) (runs (trace w)))
       /\ (fs !! p = None ->
             err <> None
             /\ (fault O (SysCreateTemp (str "drop-objects-*.sql")) = None ->
                 fs !! script_file O = None ->
                 fault O (SysWrite (script_file O)) = None ->
                 steps (trace w) = [Resetter]))
       /\ (steps (trace w) `prefix_of` [Resetter; Rewriter; Restorer]
           /\ (err = None -> steps (trace w) = [Resetter; Rewriter; Restorer])))
    (start fs).
Proof.
  wp_walk.
  all: rewrite ?recreate_absent, ?delete_insert_id in * by assumption.
  all: split_and!.
  all: lazymatch goal with
       | |- forall q, q <> _ -> _ =>
           intros q Hq;
           rewrite ?(frame_rewritten _ _ q), ?(frame_created _ _ q) by done;
           rewrite ?recreate_absent, ?delete_insert_id by assumption;
           reflexivity
       | |- forall t, _ = Some _ -> Forall _ _ =>
           intros t Ht; runs_simpl;
           repeat lazymatch goal with
             | |- Forall _ [] => exact (Forall_nil_2 _)
             | |- Forall _ ((schema.dropExistingObjects_cmd _ _ _, _) :: _) =>
                 simple apply Forall_cons_2; [left; reflexivity|]
             | |- Forall _ ((schema.restoreSchema_cmd _ _ _, _) :: _) =>
                 simple apply Forall_cons_2;
                 [right; unfold fed; cbn [fst snd]; rewrite Stdin_restore; unfold contents;
                  rewrite lookup_insert_eq; f_equal;
                  lazymatch goal with
                  | H : <[_ := _]> _ !! _ = Some (File ?c) |- ?c = _ =>
                      rewrite lookup_insert_ne in H by apply modified_ne; congruence
                  end|]
             end
       | |- _ !! _ = None -> _ =>
           intros Hnone; split; [first [discriminate 1 | congruence]|];
           unfold script_file; intros H1 H2 H3;
           first [congruence | steps_simpl; reflexivity]
       | |- _ `prefix_of` _ => steps_simpl; eexists; reflexivity
       | |- _ = None -> _ => steps_simpl; intros H; first [discriminate H | reflexivity]
       end.
Qed.

(** X13.  [RestoreSchemaFromReader] leaves the local file system exactly
    as it found it, whatever its reader is and whatever it returns. *)
Theorem reader_restore_leaves_files_as_found O s fs reader :
  files (RestoreSchemaFromReader O s reader (start fs)).2 = fs.
Proof.
  change (wp (RestoreSchemaFromReader O s reader) (fun _ w => files w = fs) (start fs)).
  wp_walk.
  all: first [reflexivity | by apply delete_insert_id | by apply recreate_absent].
Qed.

(** X14.  When the file given to [RestoreSchemaFromFile] holds [t], every
    command that it runs with a standard input reads the rewriting of
    [t] there: the target is restored from the rewritten dump, never
    from the dump as it is. *)
Theorem file_restore_feeds_rewritten_file O s fs p t :
  fs !! p = Some (File t) ->
  Forall (fed (processSchemaFile_content t))
    (runs (trace (RestoreSchemaFromFile O s p (start fs)).2)).
Proof. apply (RestoreSchemaFromFile_paths O s fs p). Qed.

Lemma file_restore_feeds_rewritten_file_witness :
  Forall (fed (processSchemaFile_content sample.dump))
    (runs (trace (RestoreSchemaFromFile sample.quiet sample.handler (str "/backup/schema.sql")
                    (start {[ str "/backup/schema.sql" := File sample.dump ]})).2)).
Proof.
  apply file_restore_feeds_rewritten_file. apply lookup_singleton_eq.
Defined.

(** X15.  [RestoreSchemaFromFile] changes no file but the one named after
    its input with [.modified] added: the input file and every other
    file are as before when it returns, whatever it returns. *)
Theorem file_restore_touches_modified_only O s fs p q :
  q <> p ++ str ".modified" ->
  files (RestoreSchemaFromFile O s p (start fs)).2 !! q = fs !! q.
Proof. apply (RestoreSchemaFromFile_paths O s fs p). Qed.

Lemma file_restore_touches_modified_only_witness :
  files (RestoreSchemaFromFile sample.quiet sample.handler (str "/backup/schema.sql")
           (start {[ str "/backup/schema.sql" := File sample.dump ]})).2
    !! str "/backup/schema.sql"
  = ({[ str "/backup/schema.sql" := File sample.dump ]} : gmap text Node)
    !! str "/backup/schema.sql".
Proof.
  apply file_restore_touches_modified_only. apply not_eq_sym, modified_ne.
Defined.

(** X16.  [RestoreSchemaFromFile] opens its input only after the reset:
    when the file does not exist it returns an error, and yet the reset
    has been run whenever its script could be created and written. *)
Theorem file_restore_resets_before_opening O s fs p :
  fs !! p = None ->
  let r := RestoreSchemaFromFile O s p (start fs) in
  r.1 <> None
  /\ (fault O (SysCreateTemp (str "drop-objects-*.sql")) = None ->
      fs !! script_file O = None ->
      fault O (SysWrite (script_file O)) = None ->
      steps (trace r.2) = [Resetter]).
Proof. apply (RestoreSchemaFromFile_paths O s fs p). Qed.

Lemma file_restore_resets_before_opening_witness :
  let r := RestoreSchemaFromFile sample.quiet sample.handler (str "/backup/schema.sql")
             (start ∅) in
  r.1 <> None /\ steps (trace r.2) = [Resetter].
Proof.
  destruct (file_restore_resets_before_opening sample.quiet sample.handler ∅
              (str "/backup/schema.sql")) as [H1 H2]; [apply lookup_empty|].
  split; [exact H1|]. apply H2; [reflexivity | apply lookup_empty | reflexivity].
Defined.

(** X17.  The steps of [RestoreSchemaFromFile] are the reset, the rewrite
    and the restore, in this order, or the first of them when it fails;
    when it returns no error it has gone through the three. *)
Theorem file_restore_steps_in_order O s fs p :
  let r := RestoreSchemaFromFile O s p (start fs) in
  steps (trace r.2) `prefix_of` [Resetter; Rewriter; Restorer]
  /\ (r.1 = None -> steps (trace r.2) = [Resetter; Rewriter; Restorer]).
Proof. apply (RestoreSchemaFromFile_paths O s fs p). Qed.

Lemma file_restore_steps_in_order_witness :
  let fs : gmap text Node := {[ str "/backup/schema.sql" := File sample.dump ]} in
  let r := RestoreSchemaFromFile sample.quiet sample.handler (str "/backup/schema.sql")
             (start fs) in
  r.1 = None /\ steps (trace r.2) = [Resetter; Rewriter; Restorer].
Proof.
  intros fs r. assert (H : r.1 = None) by (by vm_compute).
  split; [exact H|].
  exact (proj2 (file_restore_steps_in_order sample.quiet sample.handler fs
                  (str "/backup/schema.sql")) H).
Defined.

Lemma RemoveAll_outside (m : gmap text Node) dir q :
  q <> dir -> inside dir q = false ->
  filter (fun kv => kv.1 <> dir /\ inside dir kv.1 = false) m !! q = m !! q.
Proof.
  intros Hne Hout. destruct (m !! q) as [x|] eqn:E.
  - by apply map_lookup_filter_Some.
  - apply map_lookup_filter_None. by left.
Qed.

Lemma outside_ne dir q name : inside dir q = false -> inside dir name = true -> q <> name.
Proof. congruence. Qed.

Lemma Join_ne dir name : dir <> Join dir name.
Proof.
  unfold Join. intros H. apply (f_equal length) in H.
  rewrite !length_app in H. simpl in H. lia.
Qed.

(** The files of the final file system, outside the temporary directory. *)
Ltac solve_frame q Hq :=
  first
    [ reflexivity
    | lazymatch goal with
      | |- filter _ _ !! _ = _ =>
          let dir := lazymatch type of Hq with os.inside ?dir _ = false => dir end in
          destruct (decide (q = dir)) as [->|Hne];
          [ etrans; [simple apply RemoveAll_self | symmetry; assumption]
          | etrans; [exact (RemoveAll_outside _ _ q Hne Hq)|];
            rewrite ?frame_rewritten, ?frame_created
              by (apply (outside_ne _ _ _ Hq), inside_Join_app);
            rewrite ?recreate_absent, ?delete_insert_id by assumption;
            rewrite ?lookup_insert_ne
              by first [ apply not_eq_sym, (outside_ne _ _ _ Hq), inside_Join
                       | apply not_eq_sym; exact Hne ];
            reflexivity ]
      end ].

(** What the restore reads is what the dump wrote. *)
Ltac solve_fed Hd :=
  lazymatch goal with
  | |- Forall _ [] => exact (Forall_nil_2 _)
  | |- Forall _ ((schema.dumpSchema_cmd _ _ _, _) :: _) =>
      simple apply Forall_cons_2; [left; reflexivity | solve_fed Hd]
  | |- Forall _ ((schema.dropExistingObjects_cmd _ _ _, _) :: _) =>
      simple apply Forall_cons_2; [left; reflexivity | solve_fed Hd]
  | |- Forall _ ((schema.restoreSchema_cmd _ _ _, _) :: _) =>
      simple apply Forall_cons_2;
      [ right; unfold dump_file in *; cbn [fst snd];
        lazymatch goal with
        | H : <[_ ++ str ".modified" := _]> _ !! _ = Some (File ?c) |- _ =>
            rewrite lookup_insert_ne in H by apply modified_ne;
            rewrite ?recreate_absent, ?delete_insert_id in H by assumption;
            first
              [ rewrite lookup_insert_eq in H;
                eexists; split; [eassumption|];
                rewrite Stdin_restore; unfold contents; rewrite lookup_insert_eq;
                congruence
              | rewrite lookup_insert_ne in H by apply Join_ne; congruence ]
        end
      | solve_fed Hd ]
  end.

(** Every path of [DumpAndRestoreSchema], walked once. *)
Lemma DumpAndRestoreSchema_paths O s fs :
  wp (DumpAndRestoreSchema O s)
    (fun err w =>
       (forall q, inside (temp_name O (str "pg-migration-*")) q = false ->
                  files w !! q = fs !! q)
       /\ (fs !! dump_file O = None -> Forall (fed_dump O s fs) (runs (trace w))))
    (start fs).
Proof.
  wp_walk.
  all: split; [intros q Hq | intros Hd; runs_simpl; unfold fed_dump].
  all: try lazymatch goal with
       | |- Forall _ _ => solve_fed Hd
       | |- _ => solve_frame q Hq
       end.
Qed.

(** X18.  In the dump-and-restore orchestration, started where the dump
    file does not exist yet, the command that restores reads on its
    standard input the rewriting of the very bytes that [pg_dump] wrote
    to the dump file. *)
Theorem restore_reads_rewritten_dump O s fs :
  fs !! dump_file O = None ->
  Forall (fed_dump O s fs) (runs (trace (DumpAndRestoreSchema O s (start fs)).2)).
Proof. apply (DumpAndRestoreSchema_paths O s fs). Qed.

Lemma restore_reads_rewritten_dump_witness :
  Forall (fed_dump sample.quiet sample.handler ∅)
    (runs (trace (DumpAndRestoreSchema sample.quiet sample.handler (start ∅)).2)).
Proof. apply restore_reads_rewritten_dump. apply lookup_empty. Defined.

(** X19.  The dump-and-restore orchestration changes nothing outside its
    temporary directory: every other name of the file system holds when
    it returns what it held before, whatever it returns. *)
Theorem orchestration_keeps_other_files O s fs q :
  inside (temp_name O (str "pg-migration-*")) q = false ->
  files (DumpAndRestoreSchema O s (start fs)).2 !! q = fs !! q.
Proof. apply (DumpAndRestoreSchema_paths O s fs). Qed.

Lemma orchestration_keeps_other_files_witness :
  files (DumpAndRestoreSchema sample.quiet sample.handler
           (start {[ str "/tmp/drop-objects-1234567.sql" := File sample.dump ]})).2
    !! str "/tmp/drop-objects-1234567.sql"
  = ({[ str "/tmp/drop-objects-1234567.sql" := File sample.dump ]} : gmap text Node)
    !! str "/tmp/drop-objects-1234567.sql".
Proof. apply orchestration_keeps_other_files. reflexivity. Defined.

Lemma RestoreSchemaFromReader_cmd_Args O s content :
  Args (RestoreSchemaFromReader_cmd O s content) =
    str "psql" :: connection_flags (target s)
    ++ [str "-v"; str "ON_ERROR_STOP=1"]
    ++ (if bool_decide (SSLMode (target s) = []) then []
        else [str "--sslmode=" ++ SSLMode (target s)]).
Proof.
  unfold RestoreSchemaFromReader_cmd.
  destruct (bool_decide (SSLMode (target s) = [])); cbn -[itoa]; by rewrite !app_nil_r.
Qed.

Lemma RestoreSchemaFromReader_cmd_Env O s content :
  Env (RestoreSchemaFromReader_cmd O s content) =
    Environ O ++ [str "PGPASSWORD=" ++ Password (target s)].
Proof. cbn -[itoa]. by rewrite !app_nil_r. Qed.

(** X20.  The commands of [RestoreSchemaFromReader]: the reset as in the
    orchestration; the restore with the connection parameters of the
    target, [-v ON_ERROR_STOP=1] and, when the target has an SSL mode,
    the argument [--sslmode=] followed by it, in an environment that
    has the password and no [PGSSLMODE], unlike the restore from a
    file. *)
Theorem reader_restore_passes_ssl_mode_as_argument O s fs reader :
  Forall (reader_passed O s)
    (commands (trace (RestoreSchemaFromReader O s reader (start fs)).2)).
Proof.
  change (wp (RestoreSchemaFromReader O s reader)
            (fun _ w => Forall (reader_passed O s) (commands (trace w))) (start fs)).
  wp_run; commands_simpl;
    repeat lazymatch goal with
      | |- Forall _ [] => exact (Forall_nil_2 _)
      | |- Forall _ (schema.dropExistingObjects_cmd _ _ _ :: _) =>
          simple apply Forall_cons_2;
          [left; split;
           [simple apply dropExistingObjects_cmd_Args | simple apply dropExistingObjects_cmd_Env]|]
      | |- Forall _ (schema.RestoreSchemaFromReader_cmd _ _ _ :: _) =>
          simple apply Forall_cons_2;
          [right; split;
           [simple apply RestoreSchemaFromReader_cmd_Args
           | simple apply RestoreSchemaFromReader_cmd_Env]|]
      end.
Qed.

(** X21.  [DumpSchemaToFile] returns no error exactly when [pg_dump]
    does; what [pg_dump] wrote is in the file when it returns, also when
    it returns an error; no other file has changed and nothing was
    removed. *)
Theorem dump_to_file_keeps_output O s fs p :
  let out := child O (dumpSchema_cmd O s p) fs in
  let r := DumpSchemaToFile O s p (start fs) in
  (r.1 = None <-> exit_error out = None)
  /\ (forall bytes, written out = Some bytes -> files r.2 !! p = Some (File bytes))
  /\ (forall q, q <> p -> files r.2 !! q = fs !! q)
  /\ Forall (fun e => is_cleanup e = false) (trace r.2).
Proof.
  change (wp (dumpSchema O s p)
            (fun err w =>
               (err = None <-> exit_error (child O (dumpSchema_cmd O s p) fs) = None)
               /\ (forall bytes, written (child O (dumpSchema_cmd O s p) fs) = Some bytes ->
                     files w !! p = Some (File bytes))
               /\ (forall q, q <> p -> files w !! q = fs !! q)
               /\ Forall (fun e => is_cleanup e = false) (trace w))
            (start fs)).
  wp_walk.
  all: split_and!; try done.
  all: try (intros bytes [= <-]; first [reflexivity | apply lookup_insert_eq]).
  all: try (intros q Hq; by apply lookup_insert_ne).
  all: try (repeat constructor).
Qed.

(** ** Setting up replication *)

Import fmt config sqldb replication shown.

Section holds_rules.
Context {A B : Type}.

Lemma holds_ret (a : A) Q tr : Q a tr -> holds (mret a) Q tr.
Proof. done. Qed.

Lemma holds_bind (m : M A) (f : A -> M B) Q tr :
  holds m (fun a tr' => holds (f a) Q tr') tr -> holds (m ≫= f) Q tr.
Proof. unfold holds, mbind, M_bind. by destruct (m tr). Qed.

End holds_rules.

Lemma holds_emit e (Q : unit -> list Event -> Prop) tr :
  Q tt (tr ++ [e]) -> holds (emit e) Q tr.
Proof. done. Qed.

Lemma holds_QueryRow_bool S db q args (Q : bool * error -> list Event -> Prop) tr :
  Q (answer_bool S tr db q args) (tr ++ [EvQuery db q args]) ->
  holds (QueryRow_bool S db q args) Q tr.
Proof. done. Qed.

Lemma holds_QueryRow_text S db q args (Q : text * error -> list Event -> Prop) tr :
  Q (answer_text S tr db q args) (tr ++ [EvQuery db q args]) ->
  holds (QueryRow_text S db q args) Q tr.
Proof. done. Qed.

Lemma holds_Exec S db q args (Q : error -> list Event -> Prop) tr :
  Q (result S tr db q args) (tr ++ [EvExec db q args]) ->
  holds (Exec S db q args) Q tr.
Proof. done. Qed.

(** One step of a program of [sqldb.M]: its next call, or the case
    analysis it waits for. *)
Ltac db_step :=
  lazymatch goal with
  | |- holds (mbind _ _) _ _ => simple apply @holds_bind
  | |- holds (mret _) _ _ => simple apply @holds_ret
  | |- holds (sqldb.emit _) _ _ => simple apply holds_emit
  | |- holds (sqldb.QueryRow_bool _ _ _ _) _ _ => simple apply holds_QueryRow_bool
  | |- holds (sqldb.QueryRow_text _ _ _ _) _ _ => simple apply holds_QueryRow_text
  | |- holds (sqldb.Exec _ _ _ _) _ _ => simple apply holds_Exec
  | |- holds (sqldb.defer _ _) _ _ => unfold sqldb.defer
  | |- holds (sqldb.Open _ _ _) _ _ => unfold sqldb.Open
  | |- holds (sqldb.Close _) _ _ => unfold sqldb.Close
  | |- holds (sqldb.Println _) _ _ => unfold sqldb.Println
  | |- holds (sqldb.Printf _ _) _ _ => unfold sqldb.Printf
  | |- holds (replication.checkExtensionInstalled _ _ _) _ _ =>
      unfold replication.checkExtensionInstalled
  | |- holds (replication.installExtension _ _ _) _ _ => unfold replication.installExtension
  | |- holds (replication.checkWalLevel _ _) _ _ => unfold replication.checkWalLevel
  | |- holds (replication.SetupReplication _ _) _ _ => unfold replication.SetupReplication
  | |- holds (match ?x with _ => _ end) _ _ => destruct x eqn:?
  | |- holds (if ?x then _ else _) _ _ => destruct x eqn:?
  end;
  lazy beta iota zeta delta [fst snd fmt.Errorf negb].

Ltac db_run := repeat db_step; cbn [app].

(** The answers to the checks, event by event. *)
Lemma found_from_nil S pre : found_from S pre [] = [].
Proof. done. Qed.

Lemma found_from_check S pre db args tr l :
  found_from S
    (pre ++ [EvQuery db
               (str "SELECT EXISTS(SELECT 1 FROM pg_extension WHERE extname = $1);") args])
    tr = l ->
  found_from S pre
    (EvQuery db (str "SELECT EXISTS(SELECT 1 FROM pg_extension WHERE extname = $1);") args
     :: tr) =
  (answer_bool S pre db
     (str "SELECT EXISTS(SELECT 1 FROM pg_extension WHERE extname = $1);") args).1 :: l.
Proof. intros <-. cbn [found_from]. by rewrite bool_decide_eq_true_2. Qed.

Lemma found_from_wal S pre db args tr l :
  found_from S (pre ++ [EvQuery db (str "SHOW wal_level;") args]) tr = l ->
  found_from S pre (EvQuery db (str "SHOW wal_level;") args :: tr) = l.
Proof. intros <-. cbn [found_from]. by rewrite bool_decide_eq_false_2. Qed.

Lemma found_from_other S pre e tr l :
  match e with EvQuery _ _ _ => False | _ => True end ->
  found_from S (pre ++ [e]) tr = l -> found_from S pre (e :: tr) = l.
Proof. intros He <-. by destruct e. Qed.

(** The answers to the checks of an explicit trace, event by event. *)
Ltac found_eq :=
  lazymatch goal with
  | |- found_from _ _ [] = _ => exact (found_from_nil _ _)
  | |- found_from _ _ (sqldb.EvQuery _ (str "SHOW wal_level;") _ :: _) = _ =>
      simple eapply found_from_wal; found_eq
  | |- found_from _ _ (sqldb.EvQuery _ _ _ :: _) = _ =>
      simple eapply found_from_check; found_eq
  | |- found_from _ _ (?e :: _) = _ =>
      simple eapply (found_from_other _ _ e _ _ I); found_eq
  end.

Ltac found_simpl :=
  lazymatch goal with
  | |- context [found ?S ?tr] =>
      let x := fresh "x" in
      let H := fresh "H" in
      set (x := found S tr);
      eassert (H : x = _) by (subst x; unfold found; found_eq);
      clearbody x; subst x
  end.

(** The flags of a path, from what the checks were answered. *)
Ltac solve_flags :=
  repeat match goal with
         | H : sqldb.answer_bool _ _ _ _ _ = _ |- _ => rewrite H; clear H
         end;
  lazy beta iota zeta delta [nth fst snd];
  repeat match goal with
         | b : bool |- _ => destruct b; try discriminate
         end;
  lazy beta iota zeta delta [plan]; cbn [app];
  (split; [ eexists; reflexivity | first [ discriminate 1 | intros _; reflexivity ] ]).

(** A path that ends with an error has met a call that failed. *)
Ltac solve_obliging :=
  first
    [ reflexivity
    | intros (H1 & H2 & H3 & H4); exfalso;
      repeat match goal with
             | H : connect _ _ _ = Some _ |- _ => rewrite H1 in H; discriminate H
             | H : result _ _ _ _ _ = Some _ |- _ => rewrite H4 in H; discriminate H
             | H : answer_bool ?S ?tr ?db ?q ?args = (_, Some _) |- _ =>
                 specialize (H2 tr db q args); rewrite H in H2; discriminate H2
             | H : answer_text ?S ?tr ?db ?q ?args = (_, Some _) |- _ =>
                 specialize (H3 tr db q args); rewrite H in H3; discriminate H3
             end ].

(** Every path of [SetupReplication], walked once. *)
Lemma SetupReplication_paths S r :
  holds (SetupReplication S r)
    (fun err tr =>
       (let not_found i := negb (nth i (found S tr) true) in
        statements tr `prefix_of` plan r (not_found 0) (not_found 1) /\
        (err = None -> statements tr = plan r (not_found 0) (not_found 1))) /\
       closed tr = rev (opened tr) /\
       (obliging S -> err = None)) [].
Proof.
  db_run.
  all: split; [|split; [reflexivity|solve_obliging]].
  all: lazy zeta; try found_simpl.
  all: cbn [statements omap list_omap].
  all: solve_flags.
Qed.

(** X22.  The statements that [SetupReplication] sends are, in order:
    on the source, the check for the extension, its installation exactly
    when the check answered that it is not there, the drop of the
    publication and its creation; then on the target, the check, the
    installation exactly when that check answered that it is not there,
    the WAL level, the drop of the subscription and its creation with
    the connection string of the source, the publication and the slot;
    or the first of these when it fails.  A run that returns no error
    has sent them all. *)
Theorem setup_statement_order S r :
  let run := SetupReplication S r [] in
  let not_found i := negb (nth i (found S run.2) true) in
  statements run.2 `prefix_of` plan r (not_found 0) (not_found 1) /\
  (run.1 = None -> statements run.2 = plan r (not_found 0) (not_found 1)).
Proof. apply (SetupReplication_paths S r). Qed.

Lemma setup_statement_order_witness :
  let r := NewReplicator sample.src sample.dst in
  statements (SetupReplication bare_server r []).2 = plan r true true /\
  statements (SetupReplication replica_server r []).2 = plan r false false.
Proof.
  intros r. split.
  - apply (proj2 (setup_statement_order bare_server r)). by vm_compute.
  - apply (proj2 (setup_statement_order replica_server r)). by vm_compute.
Defined.

(** X23.  Every handle that [SetupReplication] opened is closed when it
    returns, whatever it returns, the last opened first. *)
Theorem setup_closes_handles S r :
  let run := SetupReplication S r [] in
  closed run.2 = rev (opened run.2).
Proof. apply (SetupReplication_paths S r). Qed.

(** X24.  [SetupReplication] returns no error whenever no call to a
    server returns one: the WAL level that the target reports is read
    and not looked at. *)
Theorem setup_ignores_wal_level S r :
  obliging S -> (SetupReplication S r []).1 = None.
Proof. apply (SetupReplication_paths S r). Qed.

Lemma setup_ignores_wal_level_witness :
  (SetupReplication (replica_server) (NewReplicator sample.src sample.dst) []).1 = None.
Proof. apply setup_ignores_wal_level. by repeat split. Defined.

(** The connection string holds the password in clear. *)
Lemma Contains_middle a p b : Contains (a ++ p ++ b) p = true.
Proof.
  induction a as [|c a IH]; cbn [app].
  - destruct (p ++ b) eqn:E.
    + rewrite Contains_nil. apply app_eq_nil in E as [-> _]. done.
    + rewrite Contains_cons, <- E, HasPrefix_app. done.
  - rewrite Contains_cons, IH. apply orb_true_r.
Qed.

Lemma ConnectionString_password c :
  Contains (ConnectionString c) (str "password=" ++ Password c) = true.
Proof.
  unfold ConnectionString.
  set (ssl := if bool_decide _ then _ else _). clearbody ssl.
  assert (Sprintf (str "host=%s port=%d user=%s password=%s dbname=%s sslmode=%s")
            [Str (Host c); Int (Port c); Str (User c); Str (Password c);
             Str (Database c); Str ssl] =
          (str "host=" ++ Host c ++ str " port=" ++ itoa (Port c) ++ str " user="
           ++ User c ++ str " ")
          ++ (str "password=" ++ Password c)
          ++ (str " dbname=" ++ Database c ++ str " sslmode=" ++ ssl)) as ->.
  { cbn. rewrite <- !app_assoc. cbn. repeat (f_equal; rewrite <- ?app_assoc; cbn).
    by rewrite app_nil_r. }
  apply Contains_middle.
Qed.

(** X25.  A run of [SetupReplication] that returns no error has ended
    with the creation of the subscription on the target, to which it
    passed the connection string of the source, password included. *)
Theorem setup_hands_source_password_to_target S r :
  let run := SetupReplication S r [] in
  run.1 = None ->
  last (statements run.2) =
    Some (ConnectionString (target r), createSubQuery,
          [str "aiven_db_migrate_sub"; ConnectionString (source r);
           str "aiven_db_migrate_pub"; str "aiven_db_migrate_slot"]) /\
  Contains (ConnectionString (source r)) (str "password=" ++ Password (source r)) = true.
Proof.
  intros run Hnil. split; [|apply ConnectionString_password].
  destruct (SetupReplication_paths S r) as ((_ & Hplan) & _).
  fold run in Hplan. rewrite (Hplan Hnil). by destruct (negb _), (negb _).
Qed.

Lemma setup_hands_source_password_to_target_witness :
  let r := NewReplicator sample.src sample.dst in
  last (statements (SetupReplication replica_server r []).2) =
    Some (ConnectionString (target r), createSubQuery,
          [str "aiven_db_migrate_sub"; ConnectionString (source r);
           str "aiven_db_migrate_pub"; str "aiven_db_migrate_slot"]) /\
  Contains (ConnectionString (source r)) (str "password=" ++ Password (source r)) = true.
Proof.
  apply (setup_hands_source_password_to_target replica_server). by vm_compute.
Defined.
